(** * Paleta Color: the color algorithms library, embedded in Rocq

    A shallow embedding of [lib/color-algorithms.ts]: the colour-space
    conversions ([rgbToHsl], [hslToRgb], [rgbToHex]), the k-means colour
    extraction ([extractColorsKMeans] and its helpers), the harmony
    generator ([generateComplementaryColors]) and the tints and shades
    ([generateColorVariations]); and of the callers [generatePalette],
    [handleImageLoad] and [sampleColorAtPosition].

    A JavaScript [number] is an IEEE 754 binary64 value, so it is modelled
    by Rocq's primitive [float]: [+], [-], [*], [/], [sqrt] and the
    comparisons are the very operations the engine performs, bit for bit.
    The few [Math] functions the library calls are defined below on the
    mantissa and exponent of the float, with exact integer arithmetic. *)

From Stdlib Require Import ZArith List Bool String Ascii Uint63 Floats Lia.
Import ListNotations.

Local Open Scope float_scope.

(** ** JavaScript numbers *)

Module JS.

(** The number of an integer loop counter or of a byte of the buffer. *)
Definition ofZ (z : Z) : float :=
  if (z <? 0)%Z then - of_uint63 (Uint63.of_Z (- z))
  else of_uint63 (Uint63.of_Z z).

Definition ofNat (n : nat) : float := ofZ (Z.of_nat n).

(** A positive finite [x] is [M * 2^-k] with [M] its 53-bit mantissa and
    [k = 2154 - se], where [frshiftexp x = (_, se)]; for [2154 <= se] the
    number is an integer already.  The four roundings of the magnitude that
    [Math.floor], [Math.ceil] and [Math.round] need, on that integer
    quotient. *)
Inductive rounding := Down | Up | HalfUp | HalfDown.

Definition roundMagnitude (rd : rounding) (x : float) : float :=
  let (m, se) := frshiftexp x in
  let M := normfr_mantissa m in
  if (2154 <=? se)%uint63 then x
  else
    let k := (2154 - se)%uint63 in
    if (55 <? k)%uint63 then
      match rd with Up => 1 | _ => 0 end
    else
      of_uint63
        match rd with
        | Down => (M >> k)%uint63
        | Up => ((M + (1 << k) - 1) >> k)%uint63
        | HalfUp => (((M << 1) + (1 << k)) >> (k + 1))%uint63
        | HalfDown => (((M << 1) + (1 << k) - 1) >> (k + 1))%uint63
        end.

Definition roundWith (pos neg : rounding) (x : float) : float :=
  if is_nan x then x
  else if is_infinity x then x
  else if is_zero x then x
  else if x <? 0 then - roundMagnitude neg (- x)
  else roundMagnitude pos x.

(** [Math.floor], [Math.ceil], and [Math.round] (nearest integer, a tie
    going towards +Infinity; NaN, the infinities and the zeros are kept). *)
Definition Math_floor : float -> float := roundWith Down Up.
Definition Math_ceil : float -> float := roundWith Up Down.
Definition Math_round : float -> float := roundWith HalfUp HalfDown.

(** [Math.max] and [Math.min] of two numbers: NaN is contagious and +0 is
    larger than -0. *)
Definition Math_max (a b : float) : float :=
  if is_nan a then a else if is_nan b then b
  else if a <? b then b else if b <? a then a
  else if get_sign a then b else a.

Definition Math_min (a b : float) : float :=
  if is_nan a then a else if is_nan b then b
  else if a <? b then a else if b <? a then b
  else if get_sign a then a else b.

Definition Math_max3 (a b c : float) : float := Math_max (Math_max a b) c.
Definition Math_min3 (a b c : float) : float := Math_min (Math_min a b) c.

(** [Math.pow(x, 2)]: the square. *)
Definition Math_pow2 (x : float) : float := x * x.

Definition Math_sqrt : float -> float := sqrt.

(** The remainder operator [x % y]: the exact remainder of the truncated
    division, with the sign of [x].  Both numbers are written over their
    common exponent, the remainder of the two integers is taken, and the
    result (below [2^53] in magnitude, so exact) is scaled back. *)
Definition rem (x y : float) : float :=
  match Prim2SF x, Prim2SF y with
  | S754_nan, _ | _, S754_nan => nan
  | S754_infinity _, _ => nan
  | _, S754_zero _ => nan
  | _, S754_infinity _ => x
  | S754_zero _, _ => x
  | S754_finite sx mx ex, S754_finite _ my ey =>
      let e := Z.min ex ey in
      let X := (Zpos mx * 2 ^ (ex - e))%Z in
      let Y := (Zpos my * 2 ^ (ey - e))%Z in
      let R := (X mod Y)%Z in
      let f := Z.ldexp (of_uint63 (Uint63.of_Z R)) e in
      if sx then - f else f
  end.

(** [x.toString(16)].  An integer prints as its hexadecimal digits; a
    fraction prints its exact expansion after the point (a double is a
    dyadic rational, so the expansion is finite). *)
Definition hexDigit (d : Z) : ascii :=
  nth (Z.to_nat d)
    ["0"; "1"; "2"; "3"; "4"; "5"; "6"; "7"; "8"; "9";
     "a"; "b"; "c"; "d"; "e"; "f"]%char "0"%char.

Fixpoint intDigits (fuel : nat) (n : Z) (acc : string) : string :=
  match fuel with
  | O => acc
  | S fuel' =>
      let acc' := String (hexDigit (n mod 16)) acc in
      if (n / 16 =? 0)%Z then acc' else intDigits fuel' (n / 16) acc'
  end.

Fixpoint fracDigits (fuel : nat) (num den : Z) : string :=
  match fuel with
  | O => EmptyString
  | S fuel' =>
      if (num =? 0)%Z then EmptyString
      else String (hexDigit (16 * num / den))
                  (fracDigits fuel' ((16 * num) mod den) den)
  end.

Definition toString16 (x : float) : string :=
  match Prim2SF x with
  | S754_nan => "NaN"
  | S754_zero _ => "0"
  | S754_infinity s => if s then "-Infinity" else "Infinity"
  | S754_finite s m e =>
      let den := (2 ^ (- e))%Z in
      let whole := if (e <? 0)%Z then (Zpos m / den)%Z else (Zpos m * 2 ^ e)%Z in
      let part := if (e <? 0)%Z then (Zpos m mod den)%Z else 0%Z in
      let digits := intDigits (Z.to_nat (Z.log2 whole) + 1) whole EmptyString in
      let body :=
        if (part =? 0)%Z then digits
        else (digits ++ "." ++ fracDigits (Z.to_nat (- e)) part den)%string in
      if s then ("-" ++ body)%string else body
  end.

(** [str.padStart(2, '0')]. *)
Definition padStart2 (str : string) : string :=
  match String.length str with
  | O => "00"
  | S O => String "0"%char str
  | _ => str
  end.

End JS.

Import JS.

(** ** The data model ([types/color.types.ts]) *)

Record Position := mkPosition { pos_x : float; pos_y : float }.

(** [interface Color]: the channels, the derived HSL fields and hex string,
    and the optional position in the source image. *)
Record Color := mkColor {
  r : float;
  g : float;
  b : float;
  h : float;
  s : float;
  l : float;
  hex : string;
  position : option Position
}.

Inductive HarmonyMode :=
  | Complementary
  | Analogous
  | Triadic
  | Tetradic
  | SplitComplementary.

(** The object literals [{h, s, l}] and [{r, g, b}] of the converters. *)
Record Hsl := mkHsl { hsl_h : float; hsl_s : float; hsl_l : float }.
Record Rgb := mkRgb { rgb_r : float; rgb_g : float; rgb_b : float }.

(** ** Colour-space conversions *)

Definition rgbToHsl (r g b : float) : Hsl :=
  let r := r / 255 in
  let g := g / 255 in
  let b := b / 255 in
  let max := Math_max3 r g b in
  let min := Math_min3 r g b in
  let l := (max + min) / 2 in
  let '(h, s) :=
    if negb (max =? min) then
      let d := max - min in
      let s := if 0.5 <? l then d / (2 - max - min) else d / (max + min) in
      let h :=
        if max =? r then ((g - b) / d + (if g <? b then 6 else 0)) / 6
        else if max =? g then ((b - r) / d + 2) / 6
        else if max =? b then ((r - g) / d + 4) / 6
        else 0 in
      (h, s)
    else (0, 0) in
  {| hsl_h := Math_round (h * 360);
     hsl_s := Math_round (s * 100);
     hsl_l := Math_round (l * 100) |}.

Definition hue2rgb (p q t : float) : float :=
  let t := if t <? 0 then t + 1 else t in
  let t := if 1 <? t then t - 1 else t in
  if t <? 1 / 6 then p + (q - p) * 6 * t
  else if t <? 1 / 2 then q
  else if t <? 2 / 3 then p + (q - p) * (2 / 3 - t) * 6
  else p.

Definition hslToRgb (h s l : float) : Rgb :=
  let h := h / 360 in
  let s := s / 100 in
  let l := l / 100 in
  let '(r, g, b) :=
    if s =? 0 then (l, l, l)
    else
      let q := if l <? 0.5 then l * (1 + s) else l + s - l * s in
      let p := 2 * l - q in
      (hue2rgb p q (h + 1 / 3), hue2rgb p q h, hue2rgb p q (h - 1 / 3)) in
  {| rgb_r := Math_round (r * 255);
     rgb_g := Math_round (g * 255);
     rgb_b := Math_round (b * 255) |}.

Definition rgbToHex (r g b : float) : string :=
  ("#" ++ concat EmptyString (map (fun x => padStart2 (toString16 x)) [r; g; b]))%string.

(** ** Harmony generation *)

(** The object every branch of the generator pushes:
    [{...rgb, ...hsl, hex: rgbToHex(rgb.r, rgb.g, rgb.b)}], the HSL fields
    re-derived from the rounded channels. *)
Definition colorOfRgb (rgb : Rgb) : Color :=
  let hsl := rgbToHsl (rgb_r rgb) (rgb_g rgb) (rgb_b rgb) in
  {| r := rgb_r rgb; g := rgb_g rgb; b := rgb_b rgb;
     h := hsl_h hsl; s := hsl_s hsl; l := hsl_l hsl;
     hex := rgbToHex (rgb_r rgb) (rgb_g rgb) (rgb_b rgb);
     position := None |}.

Definition triadicHues : list float := [0; 120; 240].
Definition tetradicHues : list float := [0; 90; 180; 270].
Definition splitHues : list float := [0; 150; 210].

(** The target hue of ring member [i]. *)
Definition newH (mode : HarmonyMode) (baseColor : Color) (rings i : nat) : float :=
  match mode with
  | Complementary => rem (h baseColor + 180) 360
  | Analogous =>
      let hueOffset := ((ofNat i - ofNat rings / 2) * 60) / ofNat rings in
      rem (h baseColor + hueOffset + 360) 360
  | Triadic =>
      let hueIndex := (i mod 3)%nat in
      rem (h baseColor + nth hueIndex triadicHues nan) 360
  | Tetradic =>
      let hueIndex := (i mod 4)%nat in
      rem (h baseColor + nth hueIndex tetradicHues nan) 360
  | SplitComplementary =>
      let hueIndex := (i mod 3)%nat in
      rem (h baseColor + nth hueIndex splitHues nan) 360
  end.

(** The target lightness of ring member [i], clamped to [10, 90]. *)
Definition newL (mode : HarmonyMode) (baseColor : Color) (rings i : nat) : float :=
  match mode with
  | Complementary =>
      let lightnessVariation := (ofNat i - ofNat rings / 2) * (60 / ofNat rings) in
      Math_max 10 (Math_min 90 (l baseColor + lightnessVariation))
  | Analogous =>
      let lightnessVariation := if Nat.eqb (i mod 2) 0 then 10 else -10 in
      Math_max 10 (Math_min 90 (l baseColor + lightnessVariation))
  | Triadic | SplitComplementary =>
      let lightnessVariation :=
        Math_floor (ofNat i / 3) * (40 / Math_ceil (ofNat rings / 3)) in
      Math_max 10 (Math_min 90 (l baseColor + lightnessVariation - 20))
  | Tetradic =>
      let lightnessVariation :=
        Math_floor (ofNat i / 4) * (40 / Math_ceil (ofNat rings / 4)) in
      Math_max 10 (Math_min 90 (l baseColor + lightnessVariation - 20))
  end.

(** One pass of the [for] loop of the selected [case]: the pushed colour. *)
Definition ringColor (mode : HarmonyMode) (baseColor : Color) (rings i : nat) : Color :=
  let rgb := hslToRgb (newH mode baseColor rings i) (s baseColor)
                      (newL mode baseColor rings i) in
  colorOfRgb rgb.

(** [for (let i = 0; i < rings; i++) colors.push(...)], then
    [colors.slice(0, rings)]. *)
Definition generateComplementaryColors
    (baseColor : Color) (rings : nat) (mode : HarmonyMode) : list Color :=
  let colors := map (ringColor mode baseColor rings) (seq 0 rings) in
  firstn rings colors.

(** ** Randomness

    [Math.floor(Math.random() * n)] is the only use the library makes of
    the random source: an index below [n].  The source is an explicit
    stream of draws threaded through the extraction; each use consumes one
    draw and reduces it below [n], so every index of [0 .. n-1] can come
    out and nothing else. *)

Definition Random : Type := nat -> nat.

Definition Rand (A : Type) : Type := Random -> A * Random.

Definition ret {A} (a : A) : Rand A := fun rnd => (a, rnd).

Definition bind {A B} (c : Rand A) (k : A -> Rand B) : Rand B :=
  fun rnd => let (a, rnd') := c rnd in k a rnd'.

Notation "x <- c ;; k" := (bind c (fun x => k))
  (at level 61, c at next level, right associativity).

Definition randomIndex (n : nat) : Rand nat :=
  fun rnd => ((rnd O mod n)%nat, fun i => rnd (S i)).

Fixpoint mapRand {A B} (f : A -> Rand B) (xs : list A) : Rand (list B) :=
  match xs with
  | [] => ret []
  | x :: xs' => y <- f x ;; ys <- mapRand f xs' ;; ret (y :: ys)
  end.

(** ** K-means extraction *)

(** A sampled pixel, a centroid: the three-element [number[]]. *)
Definition Pixel : Type := (float * float * float)%type.

Definition ch0 (c : Pixel) : float := fst (fst c).
Definition ch1 (c : Pixel) : float := snd (fst c).
Definition ch2 (c : Pixel) : float := snd c.

(** What indexing past the end of [pixels] would give. *)
Definition undefinedPixel : Pixel := (nan, nan, nan).

Definition colorDistance (color1 color2 : Pixel) : float :=
  Math_sqrt
    (Math_pow2 (ch0 color1 - ch0 color2) +
     Math_pow2 (ch1 color1 - ch1 color2) +
     Math_pow2 (ch2 color1 - ch2 color2)).

(** [[...pixels[Math.floor(Math.random() * pixels.length)]]]. *)
Definition randomPixel (pixels : list Pixel) : Rand Pixel :=
  idx <- randomIndex (List.length pixels) ;;
  ret (nth idx pixels undefinedPixel).

(** The inner [forEach] of the seeding: distance to the nearest centroid. *)
Definition minDistToExisting (candidate : Pixel) (centroids : list Pixel) : float :=
  fold_left (fun acc centroid => Math_min acc (colorDistance candidate centroid))
            centroids infinity.

(** [for (let tries = 0; tries < 50; tries++)]: the candidate farthest
    from the centroids chosen so far. *)
Fixpoint tryCandidates (tries : nat) (pixels centroids : list Pixel)
    (bestCandidate : option Pixel) (maxMinDistance : float)
    : Rand (option Pixel) :=
  match tries with
  | O => ret bestCandidate
  | S tries' =>
      candidate <- randomPixel pixels ;;
      let d := minDistToExisting candidate centroids in
      if maxMinDistance <? d
      then tryCandidates tries' pixels centroids (Some candidate) d
      else tryCandidates tries' pixels centroids bestCandidate maxMinDistance
  end.

(** [while (centroids.length < k)]: every pass pushes one centroid, so [k]
    passes are always enough. *)
Fixpoint growCentroids (fuel : nat) (pixels : list Pixel) (k : nat)
    (centroids : list Pixel) : Rand (list Pixel) :=
  match fuel with
  | O => ret centroids
  | S fuel' =>
      if (List.length centroids <? k)%nat then
        bestCandidate <- tryCandidates 50 pixels centroids None 0 ;;
        next <- match bestCandidate with
                | Some c => ret c
                | None => randomPixel pixels
                end ;;
        growCentroids fuel' pixels k (centroids ++ [next])
      else ret centroids
  end.

Definition initializeDistinctCentroids (pixels : list Pixel) (k : nat)
    : Rand (list Pixel) :=
  first <- randomPixel pixels ;;
  growCentroids k pixels k [first].

(** The loop counters [0, step, 2*step, ...] below [bound]. *)
Fixpoint strideFrom (fuel step y bound : nat) : list nat :=
  match fuel with
  | O => []
  | S fuel' =>
      if (y <? bound)%nat then y :: strideFrom fuel' step (y + step) bound
      else []
  end.

Definition stride (step bound : nat) : list nat := strideFrom bound step 0 bound.

(** The colour-frequency table of [findDistinctReplacement]: a [Map] keeps
    its keys in insertion order; the key [`${r},${g},${b}`] identifies the
    three numbers. *)
Definition pixel_eqb (p1 p2 : Pixel) : bool :=
  Leibniz.eqb (ch0 p1) (ch0 p2) && Leibniz.eqb (ch1 p1) (ch1 p2)
  && Leibniz.eqb (ch2 p1) (ch2 p2).

Fixpoint countColor (key : Pixel) (colorCounts : list (Pixel * nat))
    : list (Pixel * nat) :=
  match colorCounts with
  | [] => [(key, 1%nat)]
  | (k', n) :: rest =>
      if pixel_eqb key k' then (k', S n) :: rest
      else (k', n) :: countColor key rest
  end.

(** [.sort((a, b) => b[1] - a[1])]: by decreasing count, stable. *)
Fixpoint insertByCount (e : Pixel * nat) (sorted : list (Pixel * nat))
    : list (Pixel * nat) :=
  match sorted with
  | [] => [e]
  | e' :: rest =>
      if (snd e' <? snd e)%nat then e :: e' :: rest
      else e' :: insertByCount e rest
  end.

Definition sortByCount (entries : list (Pixel * nat)) : list (Pixel * nat) :=
  fold_left (fun sorted e => insertByCount e sorted) entries [].

(** [colorDistance(color, existing) < minDistance] for some accepted colour. *)
Definition tooClose (minDistance : float) (color : Pixel)
    (existingColors : list Pixel) : bool :=
  existsb (fun existing => colorDistance color existing <? minDistance)
          existingColors.

Definition findDistinctReplacement (originalColor : Pixel)
    (existingColors pixels : list Pixel) (minDistance : float)
    : option Pixel :=
  let colorCounts :=
    fold_left (fun counts i => countColor (nth i pixels undefinedPixel) counts)
              (stride 10 (Nat.min (List.length pixels) 1000)) [] in
  let sortedColors := firstn 100 (sortByCount colorCounts) in
  find (fun candidate => negb (tooClose minDistance candidate existingColors))
       (map fst sortedColors).

Definition ensureDistinctColors (centroids pixels : list Pixel)
    (minDistance : float) : list Pixel :=
  fold_left
    (fun distinctColors centroid =>
       if negb (tooClose minDistance centroid distinctColors)
       then distinctColors ++ [centroid]
       else
         match findDistinctReplacement centroid distinctColors pixels minDistance with
         | Some replacement => distinctColors ++ [replacement]
         | None =>
             let adjusted :=
               (Math_min 255 (ch0 centroid + 30),
                Math_min 255 (ch1 centroid + 30),
                Math_min 255 (ch2 centroid + 30)) in
             distinctColors ++ [adjusted]
         end)
    centroids [].

(** [ImageData]: the RGBA bytes of a [width] x [height] image. *)
Record ImageData := mkImageData {
  data : list Z;
  width : nat;
  height : nat
}.

(** The invariant of the browser's [ImageData]: four bytes per pixel. *)
Definition wellFormed (imageData : ImageData) : Prop :=
  List.length (data imageData) = (4 * width imageData * height imageData)%nat.

(** [{ x, y, index }]. *)
Record PixelPosition := mkPixelPosition {
  pp_x : nat;
  pp_y : nat;
  pp_index : nat
}.

(** The grid the two [for] loops visit, row by row, every fourth row and
    column, and the offset [i = (y * width + x) * 4] of a grid point. *)
Definition sampleGrid (imageData : ImageData) : list (nat * nat) :=
  flat_map (fun y => map (fun x => (x, y)) (stride 4 (width imageData)))
           (stride 4 (height imageData)).

Definition offsetOf (imageData : ImageData) (xy : nat * nat) : nat :=
  ((snd xy * width imageData + fst xy) * 4)%nat.

(** The grid points that pass the guard [if (i < data.length)]. *)
Definition sampledPoints (imageData : ImageData) : list (nat * nat) :=
  filter (fun xy => (offsetOf imageData xy <? List.length (data imageData))%nat)
         (sampleGrid imageData).

(** Every index of [data] the sampling loop reads:
    [data[i]], [data[i + 1]], [data[i + 2]] at each sampled point. *)
Definition sampleReads (imageData : ImageData) : list nat :=
  flat_map (fun xy => let i := offsetOf imageData xy in
                      [i; (i + 1)%nat; (i + 2)%nat])
           (sampledPoints imageData).

(** [data[i]]: [None] stands for [undefined], the value of a read past the
    end of the buffer. *)
Definition readData (imageData : ImageData) (i : nat) : option float :=
  option_map ofZ (nth_error (data imageData) i).

Definition readPixel (imageData : ImageData) (xy : nat * nat) : option Pixel :=
  let i := offsetOf imageData xy in
  match readData imageData i, readData imageData (i + 1),
        readData imageData (i + 2) with
  | Some c0, Some c1, Some c2 => Some (c0, c1, c2)
  | _, _, _ => None
  end.

Fixpoint allDefined {A} (xs : list (option A)) : option (list A) :=
  match xs with
  | [] => Some []
  | None :: _ => None
  | Some x :: xs' => option_map (cons x) (allDefined xs')
  end.

(** The sampled [pixels]; [None] when some channel read is [undefined]
    (the engine would carry the [undefined] on; that run is not modelled). *)
Definition samplePixels (imageData : ImageData) : option (list Pixel) :=
  allDefined (map (readPixel imageData) (sampledPoints imageData)).

(** [pixelPositions]: entry number [n] is the point of pixel number [n]. *)
Fixpoint positionsFrom (index : nat) (points : list (nat * nat))
    : list PixelPosition :=
  match points with
  | [] => []
  | (x, y) :: rest =>
      mkPixelPosition x y index :: positionsFrom (S index) rest
  end.

Definition samplePositions (imageData : ImageData) : list PixelPosition :=
  positionsFrom 0 (sampledPoints imageData).

(** The inner [centroids.forEach] of the assignment step: the index of the
    first centroid at minimal distance. *)
Definition closerCentroid (pixel : Pixel) (acc : nat * float * nat)
    (centroid : Pixel) : nat * float * nat :=
  let '(idx, minDist, closest) := acc in
  let dist := colorDistance pixel centroid in
  if dist <? minDist then (S idx, dist, idx) else (S idx, minDist, closest).

Definition closestCentroid (centroids : list Pixel) (pixel : Pixel) : nat :=
  snd (fold_left (closerCentroid pixel) centroids (O, infinity, O)).

(** [clusters[idx]] after the assignment pass: the pixels assigned to
    [idx], in sampling order. *)
Definition clusterOf (pixels : list Pixel) (assignments : list nat) (idx : nat)
    : list Pixel :=
  map fst (filter (fun pa => Nat.eqb (snd pa) idx) (combine pixels assignments)).

(** The update step for one cluster: a random pixel for an empty cluster,
    the rounded mean otherwise. *)
Definition updateCentroid (pixels cluster : list Pixel) : Rand Pixel :=
  match cluster with
  | [] => randomPixel pixels
  | _ =>
      let sum :=
        fold_left (fun acc pixel =>
                     (ch0 acc + ch0 pixel, ch1 acc + ch1 pixel, ch2 acc + ch2 pixel))
                  cluster (0, 0, 0) in
      let n := ofNat (List.length cluster) in
      ret (Math_round (ch0 sum / n), Math_round (ch1 sum / n),
           Math_round (ch2 sum / n))
  end.

(** [for (let iter = 0; iter < 15; iter++)]: the centroids and the
    assignments of the last pass.  [clusters] has [k] entries, so
    [clusters[closestCentroid].push(pixel)] throws a [TypeError] when the
    index is not below [k]: the loop then stops with [None]. *)
Fixpoint kMeansIterations (iters : nat) (pixels : list Pixel) (k : nat)
    (centroids : list Pixel) (assignments : list nat)
    : Rand (option (list Pixel * list nat)) :=
  match iters with
  | O => ret (Some (centroids, assignments))
  | S iters' =>
      let assignments' := map (closestCentroid centroids) pixels in
      if forallb (fun idx => (idx <? k)%nat) assignments' then
        let clusters := map (clusterOf pixels assignments') (seq 0 k) in
        centroids' <- mapRand (updateCentroid pixels) clusters ;;
        kMeansIterations iters' pixels k centroids' assignments'
      else ret None
  end.

(** The representative position of cluster [clusterIdx]. *)
Definition colorPosition (imageData : ImageData) (k : nat)
    (pixels : list Pixel) (pixelPositions : list PixelPosition)
    (assignments : list nat) (centroid : Pixel) (clusterIdx : nat) : Position :=
  let clusterPositions :=
    filter (fun pos =>
              match nth_error assignments (pp_index pos) with
              | Some a => Nat.eqb a clusterIdx
              | None => false
              end)
           pixelPositions in
  match clusterPositions with
  | [] =>
      let x := (ofNat (width imageData) / (ofNat k + 1)) * (ofNat clusterIdx + 1) in
      let y := ofNat (height imageData) / 2 in
      mkPosition (Math_round x) (Math_round y)
  | first :: _ =>
      let bestPosition :=
        fst (fold_left
               (fun '(best, minDistance) pos =>
                  let pixel := nth (pp_index pos) pixels undefinedPixel in
                  let dist := colorDistance pixel centroid in
                  if dist <? minDistance then (pos, dist) else (best, minDistance))
               clusterPositions (first, infinity)) in
      mkPosition (ofNat (pp_x bestPosition)) (ofNat (pp_y bestPosition))
  end.

(** [xs.map((x, idx) => f(x, idx))]. *)
Definition mapIndexed {A B} (f : A -> nat -> B) (xs : list A) : list B :=
  map (fun p => f (snd p) (fst p)) (combine (seq 0 (List.length xs)) xs).

(** [{ x: width / 2, y: height / 2 }]. *)
Definition midpoint (imageData : ImageData) : Position :=
  mkPosition (ofNat (width imageData) / 2) (ofNat (height imageData) / 2).

(** The neutral gray that fills the palette. *)
Definition neutralGray (imageData : ImageData) : Color :=
  {| r := 128; g := 128; b := 128; h := 0; s := 0; l := 50;
     hex := "#808080";
     position := Some (midpoint imageData) |}.

(** The callback of [centroids.slice(0, k).map((rgb, idx) => ...)]: the
    colour of a centroid, at [colorPositions[idx]] or at the midpoint. *)
Definition resultColor (imageData : ImageData) (colorPositions : list Position)
    (rgb : Pixel) (idx : nat) : Color :=
  let hsl := rgbToHsl (ch0 rgb) (ch1 rgb) (ch2 rgb) in
  {| r := ch0 rgb; g := ch1 rgb; b := ch2 rgb;
     h := hsl_h hsl; s := hsl_s hsl; l := hsl_l hsl;
     hex := rgbToHex (ch0 rgb) (ch1 rgb) (ch2 rgb);
     position :=
       Some match nth_error colorPositions idx with
            | Some pos => pos
            | None => midpoint imageData
            end |}.

(** [while (result.length < k) result.push(gray)]. *)
Definition padResult (imageData : ImageData) (k : nat) (result : list Color)
    : list Color :=
  result ++ repeat (neutralGray imageData) (k - List.length result).

(** What a call does: it returns a value, it throws, or it leaves the model
    (a channel read past the end of the buffer gave [undefined]). *)
Inductive Outcome (A : Type) : Type :=
  | Returns (a : A)
  | Throws
  | Unmodelled.

Arguments Returns {A} a.
Arguments Throws {A}.
Arguments Unmodelled {A}.

Definition extractColorsKMeans (imageData : ImageData) (k : nat)
    : Rand (Outcome (list Color)) :=
  match samplePixels imageData with
  | None => ret Unmodelled
  | Some [] => ret (Returns (map (fun _ => neutralGray imageData) (repeat tt k)))
  | Some pixels =>
      let pixelPositions := samplePositions imageData in
      centroids <- initializeDistinctCentroids pixels k ;;
      run <- kMeansIterations 15 pixels k centroids [] ;;
      match run with
      | None => ret Throws
      | Some ca =>
          let assignments := snd ca in
          let centroids := ensureDistinctColors (fst ca) pixels 60 in
          let colorPositions :=
            mapIndexed (colorPosition imageData k pixels pixelPositions assignments)
                       centroids in
          let result :=
            mapIndexed (resultColor imageData colorPositions)
                       (firstn k centroids) in
          ret (Returns (padResult imageData k result))
      end
  end.

(** ** Tints and shades *)

(** The object the two loops of [generateColorVariations] push for a target
    lightness [newL]. *)
Definition variationColor (baseColor : Color) (newL : float) : Color :=
  colorOfRgb (hslToRgb (h baseColor) (s baseColor) newL).

Definition tint (baseColor : Color) (i : nat) : Color :=
  variationColor baseColor (Math_min 95 (l baseColor + ofNat i * 15)).

Definition shade (baseColor : Color) (i : nat) : Color :=
  variationColor baseColor (Math_max 5 (l baseColor - ofNat i * 15)).

(** [for (let i = 1; i <= Math.floor(count / 2); i++)] twice, the base
    colour pushed in between. *)
Definition generateColorVariations (baseColor : Color) (count : nat) : list Color :=
  let half := (count / 2)%nat in
  map (tint baseColor) (seq 1 half) ++ [baseColor]
  ++ map (shade baseColor) (seq 1 half).

(** ** The callers ([PaletaApp], [ColorIndicators]) *)

(** [generatePalette]: the base colours, then the ring of each of them; the
    list handed to [setAllColors]. *)
Definition generatePalette (colors : list Color) (numRings : nat)
    (mode : HarmonyMode) : list Color :=
  colors ++
  flat_map (fun baseColor => generateComplementaryColors baseColor numRings mode)
           colors.

(** [handleImageLoad], from the [ImageData] on: the base colours handed to
    [setBaseColors] and the palette handed to [setAllColors]. *)
Definition handleImageLoad (imageData : ImageData) (rings : nat)
    (harmonyMode : HarmonyMode) : Rand (Outcome (list Color * list Color)) :=
  extracted <- extractColorsKMeans imageData 5 ;;
  ret match extracted with
      | Returns extractedColors =>
          Returns (extractedColors,
                   generatePalette extractedColors rings harmonyMode)
      | Throws => Throws
      | Unmodelled => Unmodelled
      end.

(** [sampleColorAtPosition]: the colour of the pixel at integer image
    coordinates.  A channel that is [undefined] makes [rgbToHex] throw
    ([undefined.toString]). *)
Definition sampleColorAtPosition (imageData : option ImageData) (x y : nat)
    : Outcome (option Color) :=
  match imageData with
  | None => Returns None
  | Some imageData =>
      let pixelIndex := ((y * width imageData + x) * 4)%nat in
      match readData imageData pixelIndex,
            readData imageData (pixelIndex + 1),
            readData imageData (pixelIndex + 2) with
      | Some r, Some g, Some b =>
          let hsl := rgbToHsl r g b in
          Returns (Some {| r := r; g := g; b := b;
                           h := hsl_h hsl; s := hsl_s hsl; l := hsl_l hsl;
                           hex := rgbToHex r g b;
                           position := Some (mkPosition (ofNat x) (ofNat y)) |})
      | _, _, _ => Throws
      end
  end.

(** ** Properties of the sampler *)

(** A base colour as the engine produces them: integer hue in [0, 360],
    integer saturation and lightness in [0, 100]. *)
Definition validBase (c : Color) : Prop :=
  exists hz sz lz : Z,
    (0 <= hz <= 360)%Z /\ (0 <= sz <= 100)%Z /\ (0 <= lz <= 100)%Z /\
    h c = ofZ hz /\ s c = ofZ sz /\ l c = ofZ lz.

(** The derived fields of a colour agree with its channels. *)
Definition consistent (c : Color) : Prop :=
  hex c = rgbToHex (r c) (g c) (b c) /\
  h c = hsl_h (rgbToHsl (r c) (g c) (b c)) /\
  s c = hsl_s (rgbToHsl (r c) (g c) (b c)) /\
  l c = hsl_l (rgbToHsl (r c) (g c) (b c)).

(** Every colour of [cs] is at least [d] away from the colours before it
    and from [seen]: the test [ensureDistinctColors] applies, in its order. *)
Fixpoint separated (d : float) (seen cs : list Pixel) : bool :=
  match cs with
  | [] => true
  | c :: cs' => negb (tooClose d c seen) && separated d (seen ++ [c]) cs'
  end.

(** [lo <= x <= hi]. *)
Definition between (lo hi x : float) : bool := (lo <=? x) && (x <=? hi).

(** ** The round trip through HSL *)

(** [hslToRgb] applied to the three fields of [rgbToHsl(r, g, b)]. *)
Definition roundTrip (r g b : float) : Rgb :=
  let hsl := rgbToHsl r g b in
  hslToRgb (hsl_h hsl) (hsl_s hsl) (hsl_l hsl).

(** [|x - y| <= d]. *)
Definition near (d x y : float) : bool := (x - y <=? d) && (y - x <=? d).

(** The round trip moves no channel of [(r, g, b)] by more than [d]. *)
Definition roundTripWithin (d r g b : float) : bool :=
  let rgb := roundTrip r g b in
  near d (rgb_r rgb) r && near d (rgb_g rgb) g && near d (rgb_b rgb) b.

(** The integers [lo, lo + 1, ..., lo + n - 1], and the same as numbers. *)
Definition zRange (lo : Z) (n : nat) : list Z :=
  map (fun i => (lo + Z.of_nat i)%Z) (seq 0 n).

Definition numbers (lo : Z) (n : nat) : list float := map ofZ (zRange lo n).

(** The values of a channel. *)
Definition byteValues : list float := numbers 0 256.

(** A pixel of three bytes. *)
Definition bytePixel (p : Pixel) : Prop :=
  In (ch0 p) byteValues /\ In (ch1 p) byteValues /\ In (ch2 p) byteValues.

(** The hue offsets the harmony modes add to the base hue, and the check
    that the remainder of the generator agrees with the integer remainder. *)
Definition hueOffsets : list Z := [0; 90; 120; 150; 180; 210; 240; 270]%Z.

Definition hueTargetOK (hz off : Z) : bool :=
  Leibniz.eqb (rem (ofZ hz + ofZ off) 360) (ofZ ((hz + off) mod 360)).

(** ** Ring places *)

(** A base colour of the given hue, saturation and lightness. *)
Definition hslColor (hz sz lz : Z) : Color :=
  mkColor 0 0 0 (ofZ hz) (ofZ sz) (ofZ lz) "#000000" None.

(** The ring sizes 3 to 12 with the places of each ring. *)
Definition ringPlaces : list (nat * nat) :=
  flat_map (fun rings => map (pair rings) (seq 0 rings)) (seq 3 10).

(** ** Checks run on every case *)

(** The hue offsets a cyclic mode steps through. *)
Definition cycleOffsets (mode : HarmonyMode) : list Z :=
  match mode with
  | Triadic => [0; 120; 240]
  | Tetradic => [0; 90; 180; 270]
  | SplitComplementary => [0; 150; 210]
  | _ => []
  end%Z.

(** The hue offset of place [i] of an analogous ring. *)
Definition analogousOffset (rings i : nat) : float :=
  ((ofNat i - ofNat rings / 2) * 60) / ofNat rings.

Definition allModes : list HarmonyMode :=
  [Complementary; Analogous; Triadic; Tetradic; SplitComplementary].

(** The checks that are run on every case. *)
Definition targetLightnessOK (modes : list HarmonyMode) (places : list (nat * nat))
    (lzs : list Z) : bool :=
  forallb (fun mode =>
    forallb (fun p =>
      forallb (fun lz => between 10 90 (newL mode (hslColor 0 0 lz) (fst p) (snd p)))
              lzs)
      places) modes.

Definition analogousOffsetsOK (places : list (nat * nat)) : bool :=
  forallb (fun p => (-30 <=? analogousOffset (fst p) (snd p))
                    && (analogousOffset (fst p) (snd p) <? 30)) places.

Definition sameRgb (x y : Rgb) : bool :=
  Leibniz.eqb (rgb_r x) (rgb_r y) && Leibniz.eqb (rgb_g x) (rgb_g y)
  && Leibniz.eqb (rgb_b x) (rgb_b y).

Definition fullTurnOK (percents : list float) : bool :=
  forallb (fun s => forallb (fun l => sameRgb (hslToRgb 360 s l) (hslToRgb 0 s l))
                            percents) percents.

Definition grayOK (v : float) : bool :=
  Leibniz.eqb (hsl_h (rgbToHsl v v v)) 0 && Leibniz.eqb (hsl_s (rgbToHsl v v v)) 0.

Definition squaresOK (bytes : list float) : bool :=
  forallb (fun a =>
    forallb (fun b => Leibniz.eqb (Math_pow2 (a - b)) (Math_pow2 (b - a))) bytes
    && Leibniz.eqb (Math_pow2 (a - a)) 0) bytes.

(** The two characters [rgbToHex] writes for a channel. *)
Definition hexPair (x : float) : string := padStart2 (toString16 x).

Definition isHexDigit (c : ascii) : bool :=
  existsb (Ascii.eqb c)
    ["0"; "1"; "2"; "3"; "4"; "5"; "6"; "7"; "8"; "9";
     "a"; "b"; "c"; "d"; "e"; "f"]%char.

Definition twoHexDigits (str : string) : bool :=
  match str with
  | String c1 (String c2 EmptyString) => isHexDigit c1 && isHexDigit c2
  | _ => false
  end.

(** Every pair is two digits, and no two values share their pair. *)
Definition hexPairsOK (bytes : list float) : bool :=
  let pairs := map (fun a => (a, hexPair a)) bytes in
  forallb (fun p =>
    twoHexDigits (snd p) &&
    forallb (fun q => implb (String.eqb (snd p) (snd q))
                            (Leibniz.eqb (fst p) (fst q)))
            pairs) pairs.

(** The three channels are in the byte range. *)
Definition rgbInRange (rgb : Rgb) : bool :=
  between 0 255 (rgb_r rgb) && between 0 255 (rgb_g rgb) && between 0 255 (rgb_b rgb).

(** The channels built from [(h, s, l)] are in the byte range, and their
    lightness is [l] again. *)
Definition integerHslOK (h s l : float) : bool :=
  let rgb := hslToRgb h s l in
  rgbInRange rgb &&
  Leibniz.eqb (hsl_l (rgbToHsl (rgb_r rgb) (rgb_g rgb) (rgb_b rgb))) l.

(** The target lightness of tint and shade number [i], on integers. *)
Definition variationTargetsOK (lzs : list Z) (places : list nat) : bool :=
  forallb (fun lz =>
    forallb (fun i =>
      Leibniz.eqb (Math_min 95 (ofZ lz + ofNat i * 15))
                  (ofZ (Z.min 95 (lz + 15 * Z.of_nat i))) &&
      Leibniz.eqb (Math_max 5 (ofZ lz - ofNat i * 15))
                  (ofZ (Z.max 5 (lz - 15 * Z.of_nat i))))
      places) lzs.

(** ** The conversions, regrouped

    The checks below compute what [roundTripWithin] and [integerHslOK]
    compute, with the work that depends on two of the three arguments only
    done once for all values of the third.  The lemmas
    [roundTripWithin_staged] and [integerHslOK_staged] state the equality
    with the definitions above. *)

(** The constants of [hue2rgb] and [hslToRgb]: [1 / 3], [1 / 6], [1 / 2]
    and [2 / 3]. *)
Record HueConstants := mkHueConstants {
  third : float; sixth : float; half : float; twoThirds : float }.

Definition hueConstants : HueConstants :=
  mkHueConstants (1 / 3) (1 / 6) (1 / 2) (2 / 3).

(** [Math.round(hue2rgb(p, q, t) * 255)], with the rounded values [P] and
    [Q] of the two plateaus [p] and [q] computed beforehand. *)
Definition roundedHue (k6 k2 k23 p q P Q t : float) : float :=
  let t := if t <? 0 then t + 1 else t in
  let t := if 1 <? t then t - 1 else t in
  if t <? k6 then Math_round ((p + (q - p) * 6 * t) * 255)
  else if t <? k2 then Q
  else if t <? k23 then Math_round ((p + (q - p) * (k23 - t) * 6) * 255)
  else P.

(** The round trip of [(r, g, b)], whose scaled channels are [r'], [g'],
    [b'], from what depends on their largest and smallest value only. *)
Definition stagedWithin (d5 k3 k6 k2 k23 max d p q P Q G : float)
    (chromatic gray : bool) (r g b r' g' b' : float) : bool :=
  if gray then near d5 G r && near d5 G g && near d5 G b
  else
    let h := if chromatic then
               (if max =? r' then ((g' - b') / d + (if g' <? b' then 6 else 0)) / 6
                else if max =? g' then ((b' - r') / d + 2) / 6
                else if max =? b' then ((r' - g') / d + 4) / 6
                else 0)
             else 0 in
    let th := Math_round (h * 360) / 360 in
    near d5 (roundedHue k6 k2 k23 p q P Q (th + k3)) r &&
    near d5 (roundedHue k6 k2 k23 p q P Q th) g &&
    near d5 (roundedHue k6 k2 k23 p q P Q (th - k3)) b.

(** What [rgbToHsl] and [hslToRgb] compute from the largest and the
    smallest scaled channel: saturation, lightness, [q] and [p]. *)
Definition stagedCheck (d5 : float) (k : HueConstants) (max min : float)
    : float -> float -> float -> float -> float -> float -> bool :=
  let l := (max + min) / 2 in
  let chromatic := negb (max =? min) in
  let d := max - min in
  let s := if chromatic
           then (if 0.5 <? l then d / (2 - max - min) else d / (max + min))
           else 0 in
  let s2 := Math_round (s * 100) / 100 in
  let l2 := Math_round (l * 100) / 100 in
  let q := if l2 <? 0.5 then l2 * (1 + s2) else l2 + s2 - l2 * s2 in
  let p := 2 * l2 - q in
  stagedWithin d5 (third k) (sixth k) (half k) (twoThirds k) max d p q
               (Math_round (p * 255)) (Math_round (q * 255))
               (Math_round (l2 * 255)) chromatic (s2 =? 0).

(** Every triple with largest channel in [Ms], in its six orders. *)
Definition sortedOK (d5 : float) (k : HueConstants) (Ms bytes : list float)
    : bool :=
  forallb (fun M =>
    let M' := M / 255 in
    forallb (fun m =>
      if m <=? M then
        let m' := m / 255 in
        let chk := stagedCheck d5 k M' m' in
        forallb (fun c =>
          if (m <=? c) && (c <=? M) then
            let c' := c / 255 in
            chk M c m M' c' m' && chk M m c M' m' c' &&
            chk c M m c' M' m' && chk m M c m' M' c' &&
            chk c m M c' m' M' && chk m c M m' c' M'
          else true) bytes
      else true) bytes) Ms.

(** Order, largest and smallest of two bytes, on the scaled numbers. *)
Definition bytePairsOK (zs : list Z) : bool :=
  forallb (fun a =>
    forallb (fun b =>
      Bool.eqb (ofZ a <=? ofZ b) (a <=? b)%Z &&
      Leibniz.eqb (Math_max (ofZ a / 255) (ofZ b / 255)) (ofZ (Z.max a b) / 255) &&
      Leibniz.eqb (Math_min (ofZ a / 255) (ofZ b / 255)) (ofZ (Z.min a b) / 255))
      zs) zs.

(** [integerHslOK h s l], from what depends on [s] and [l] only. *)
Definition stagedHslOK (k : HueConstants) (s l : float) : float -> bool :=
  let s' := s / 100 in
  let l' := l / 100 in
  let q := if l' <? 0.5 then l' * (1 + s') else l' + s' - l' * s' in
  let p := 2 * l' - q in
  let P := Math_round (p * 255) in
  let Q := Math_round (q * 255) in
  let G := Math_round (l' * 255) in
  let gray := s' =? 0 in
  fun h =>
    let rgb :=
      if gray then mkRgb G G G
      else
        let th := h / 360 in
        mkRgb (roundedHue (sixth k) (half k) (twoThirds k) p q P Q (th + third k))
              (roundedHue (sixth k) (half k) (twoThirds k) p q P Q th)
              (roundedHue (sixth k) (half k) (twoThirds k) p q P Q (th - third k)) in
    rgbInRange rgb &&
    Leibniz.eqb (hsl_l (rgbToHsl (rgb_r rgb) (rgb_g rgb) (rgb_b rgb))) l.

Definition allStagedHslOK (k : HueConstants) (hues percents : list float) : bool :=
  forallb (fun s =>
    forallb (fun l => forallb (stagedHslOK k s l) hues) percents) percents.

(** ** Sample inputs *)

(** A 5 x 1 image: a red pixel, three dark ones and a blue pixel. *)
Definition stripImage : ImageData :=
  mkImageData [255; 0; 0; 255;  1; 2; 3; 255;  1; 2; 3; 255;  1; 2; 3; 255;
               0; 0; 255; 255]%Z 5 1.

(** An image of width zero: no byte at all. *)
Definition emptyColumn : ImageData := mkImageData [] 0 5.

(** A random source whose draws are 0, 1, 2, ... *)
Definition countingSource : Random := fun n => n.

(** Two reds of hue 3 and full saturation, of lightness 40 and 30. *)
Definition vermilion : Color := colorOfRgb (mkRgb 204 10 0).
Definition darkVermilion : Color := colorOfRgb (mkRgb 153 8 0).

(** A colour with the hue, saturation and lightness of [vermilion] and
    nothing else in common with it. *)
Definition vermilionTag : Color :=
  {| r := 0; g := 0; b := 0; h := 3; s := 100; l := 40; hex := "#000000";
     position := Some (mkPosition 7 9) |}.

Section Sampler.

Variable imageData : ImageData.

Lemma strideFrom_below fuel step y bound z :
  In z (strideFrom fuel step y bound) -> (z < bound)%nat.
Proof.
  revert y. induction fuel as [|fuel IH]; intros y; simpl; [tauto|].
  destruct (Nat.ltb_spec y bound); simpl; [|tauto].
  intros [<-|Hin]; [assumption|eauto].
Qed.

Lemma sampleGrid_inside x y :
  In (x, y) (sampleGrid imageData) ->
  (x < width imageData)%nat /\ (y < height imageData)%nat.
Proof.
  unfold sampleGrid. rewrite in_flat_map. intros (y' & Hy & Hin).
  apply in_map_iff in Hin. destruct Hin as (x' & Heq & Hx).
  injection Heq as -> ->.
  split; eapply strideFrom_below; eassumption.
Qed.

Lemma offset_inside xy :
  wellFormed imageData -> In xy (sampleGrid imageData) ->
  (offsetOf imageData xy + 3 < List.length (data imageData))%nat.
Proof.
  intros Hwf Hin. destruct xy as [x y].
  apply sampleGrid_inside in Hin. destruct Hin as [Hx Hy].
  unfold offsetOf; simpl. rewrite Hwf. nia.
Qed.

Lemma readData_defined i :
  (i < List.length (data imageData))%nat ->
  exists v, readData imageData i = Some v.
Proof.
  intros Hi. unfold readData.
  destruct (nth_error (data imageData) i) eqn:E; simpl; [eauto|].
  apply nth_error_None in E. lia.
Qed.

Lemma readPixel_defined xy :
  wellFormed imageData -> In xy (sampleGrid imageData) ->
  exists p, readPixel imageData xy = Some p.
Proof.
  intros Hwf Hin. pose proof (offset_inside xy Hwf Hin) as Hoff.
  unfold readPixel.
  destruct (readData_defined (offsetOf imageData xy)) as [c0 ->]; [lia|].
  destruct (readData_defined (offsetOf imageData xy + 1)) as [c1 ->]; [lia|].
  destruct (readData_defined (offsetOf imageData xy + 2)) as [c2 ->]; [lia|].
  eauto.
Qed.

Lemma allDefined_all {A} (xs : list (option A)) :
  Forall (fun x => exists a, x = Some a) xs ->
  exists ys, allDefined xs = Some ys /\ List.length ys = List.length xs.
Proof.
  induction 1 as [|x xs [a ->] _ (ys & Hys & Hlen)]; simpl.
  - exists []. split; reflexivity.
  - exists (a :: ys). rewrite Hys. simpl. split; [reflexivity|congruence].
Qed.

Lemma samplePixels_defined :
  wellFormed imageData ->
  exists pixels,
    samplePixels imageData = Some pixels /\
    List.length pixels = List.length (sampledPoints imageData).
Proof.
  intros Hwf. unfold samplePixels.
  destruct (allDefined_all (map (readPixel imageData) (sampledPoints imageData)))
    as (ys & Hys & Hlen).
  - apply Forall_forall. intros o Ho. apply in_map_iff in Ho.
    destruct Ho as (xy & <- & Hxy).
    apply filter_In in Hxy. destruct Hxy as [Hgrid _].
    apply readPixel_defined; assumption.
  - exists ys. split; [assumption|]. rewrite Hlen. apply length_map.
Qed.

Lemma empty_image_no_sample :
  width imageData = O \/ height imageData = O \/ data imageData = [] ->
  samplePixels imageData = Some [].
Proof.
  intros H. unfold samplePixels, sampledPoints.
  enough (E : filter
                (fun xy => (offsetOf imageData xy <? List.length (data imageData))%nat)
                (sampleGrid imageData) = []) by (rewrite E; reflexivity).
  destruct H as [H|[H|H]].
  - unfold sampleGrid. rewrite H. simpl.
    induction (stride 4 (height imageData)); simpl; auto.
  - unfold sampleGrid. rewrite H. reflexivity.
  - rewrite H. simpl.
    induction (sampleGrid imageData); simpl; auto.
Qed.

End Sampler.

(** ** Properties of the clustering helpers *)

Lemma growCentroids_length fuel pixels k centroids rnd :
  (k <= List.length centroids + fuel)%nat ->
  List.length (fst (growCentroids fuel pixels k centroids rnd))
  = Nat.max k (List.length centroids).
Proof.
  revert centroids rnd.
  induction fuel as [|fuel IH]; intros centroids rnd Hk; cbn [growCentroids].
  - unfold ret; cbn [fst]. lia.
  - destruct (Nat.ltb_spec (List.length centroids) k) as [Hlt|Hge];
      [|unfold ret; cbn [fst]; lia].
    unfold bind.
    destruct (tryCandidates 50 pixels centroids None 0 rnd) as [best rnd1].
    destruct (match best with Some c => ret c | None => randomPixel pixels end rnd1)
      as [next rnd2].
    rewrite IH; rewrite length_app; cbn [List.length]; lia.
Qed.

(** The seeding loop never stops short: [k] centroids come out. *)
Lemma initializeDistinctCentroids_length pixels k rnd :
  (1 <= k)%nat ->
  List.length (fst (initializeDistinctCentroids pixels k rnd)) = k.
Proof.
  intros Hk. unfold initializeDistinctCentroids, bind.
  destruct (randomPixel pixels rnd) as [first rnd1].
  rewrite growCentroids_length; cbn [List.length]; lia.
Qed.

Lemma mapRand_length {A B} (f : A -> Rand B) xs rnd :
  List.length (fst (mapRand f xs rnd)) = List.length xs.
Proof.
  revert rnd. induction xs as [|x xs IH]; intros rnd; simpl; [reflexivity|].
  unfold bind. destruct (f x rnd) as [y rnd1].
  specialize (IH rnd1). destruct (mapRand f xs rnd1) as [ys rnd2].
  simpl in *. congruence.
Qed.

(** The index the assignment step picks is an index of [centroids]. *)
Lemma closestCentroid_bound centroids pixel :
  (closestCentroid centroids pixel < Nat.max 1 (List.length centroids))%nat.
Proof.
  unfold closestCentroid.
  enough (G : forall cs idx minDist closest,
             (closest < Nat.max 1 idx)%nat ->
             (snd (fold_left (closerCentroid pixel) cs (idx, minDist, closest))
              < Nat.max 1 (idx + List.length cs))%nat)
    by (apply (G centroids O infinity O); lia).
  induction cs as [|c cs IH]; intros idx minDist closest Hc; cbn [fold_left].
  - cbn [snd List.length]. lia.
  - cbn [List.length]. replace (idx + S (List.length cs))%nat
      with (S idx + List.length cs)%nat by lia.
    unfold closerCentroid at 2.
    destruct (colorDistance pixel c <? minDist); apply IH; lia.
Qed.

(** With [k >= 1] centroids the loop never throws, and [k] centroids come
    out of every pass. *)
Lemma kMeansIterations_returns iters pixels k centroids assignments rnd :
  (1 <= k)%nat -> List.length centroids = k ->
  exists ca,
    fst (kMeansIterations iters pixels k centroids assignments rnd) = Some ca /\
    List.length (fst ca) = k.
Proof.
  intros Hk. revert centroids assignments rnd.
  induction iters as [|iters IH]; intros centroids assignments rnd Hlen;
    cbn [kMeansIterations].
  - exists (centroids, assignments). split; [reflexivity|exact Hlen].
  - assert (Hall : forallb (fun idx => (idx <? k)%nat)
                     (map (closestCentroid centroids) pixels) = true).
    { apply forallb_forall. intros idx Hidx. apply in_map_iff in Hidx.
      destruct Hidx as (pixel & <- & _). apply Nat.ltb_lt.
      pose proof (closestCentroid_bound centroids pixel). lia. }
    rewrite Hall. unfold bind.
    pose proof (mapRand_length (updateCentroid pixels)
                  (map (clusterOf pixels (map (closestCentroid centroids) pixels))
                       (seq 0 k)) rnd) as Hlen'.
    destruct (mapRand (updateCentroid pixels) _ rnd) as [centroids' rnd1].
    cbn [fst] in Hlen'. rewrite length_map, length_seq in Hlen'.
    apply IH. exact Hlen'.
Qed.

Lemma ensureDistinctColors_length centroids pixels minDistance :
  List.length (ensureDistinctColors centroids pixels minDistance)
  = List.length centroids.
Proof.
  unfold ensureDistinctColors.
  enough (G : forall acc,
             List.length
               (fold_left
                  (fun distinctColors centroid =>
                     if negb (tooClose minDistance centroid distinctColors)
                     then distinctColors ++ [centroid]
                     else
                       match findDistinctReplacement centroid distinctColors
                               pixels minDistance with
                       | Some replacement => distinctColors ++ [replacement]
                       | None =>
                           distinctColors ++
                           [(Math_min 255 (ch0 centroid + 30),
                             Math_min 255 (ch1 centroid + 30),
                             Math_min 255 (ch2 centroid + 30))]
                       end) centroids acc)
             = (List.length acc + List.length centroids)%nat)
    by (rewrite G; reflexivity).
  induction centroids as [|c cs IH]; intros acc; simpl; [lia|].
  rewrite IH.
  destruct (negb (tooClose minDistance c acc));
    [|destruct (findDistinctReplacement c acc pixels minDistance)];
    rewrite length_app; simpl; lia.
Qed.

Lemma mapIndexed_length {A B} (f : A -> nat -> B) xs :
  List.length (mapIndexed f xs) = List.length xs.
Proof.
  unfold mapIndexed. rewrite length_map, length_combine, length_seq. lia.
Qed.

Lemma mapIndexed_Forall {A B} (P : B -> Prop) (f : A -> nat -> B) xs :
  (forall x i, P (f x i)) -> Forall P (mapIndexed f xs).
Proof.
  intros H. unfold mapIndexed. apply Forall_forall.
  intros y Hy. apply in_map_iff in Hy. destruct Hy as (p & <- & _). apply H.
Qed.

Lemma firstn_incl {A} n (xs : list A) x : In x (firstn n xs) -> In x xs.
Proof.
  revert n. induction xs as [|y ys IH]; intros [|n]; simpl; try tauto.
  intros [->|Hin]; eauto.
Qed.

Lemma fill_repeat {A} (a : A) k : map (fun _ => a) (repeat tt k) = repeat a k.
Proof. induction k; simpl; congruence. Qed.

Lemma neutralGray_consistent imageData : consistent (neutralGray imageData).
Proof. unfold consistent; simpl. repeat split; vm_compute; reflexivity. Qed.

Lemma resultColor_consistent imageData colorPositions rgb idx :
  consistent (resultColor imageData colorPositions rgb idx).
Proof. unfold consistent, resultColor; cbn [r g b h s l hex]. auto. Qed.

Lemma colorOfRgb_consistent rgb : consistent (colorOfRgb rgb).
Proof. unfold consistent, colorOfRgb; cbn [r g b h s l hex]. auto. Qed.

Lemma padResult_length imageData k result :
  (List.length result <= k)%nat ->
  List.length (padResult imageData k result) = k.
Proof.
  intros Hle. unfold padResult. rewrite length_app, repeat_length. lia.
Qed.

Lemma padResult_Forall (P : Color -> Prop) imageData k result :
  P (neutralGray imageData) -> Forall P result ->
  Forall P (padResult imageData k result).
Proof.
  intros Hgray Hres. unfold padResult. apply Forall_app. split; [assumption|].
  apply Forall_forall. intros c Hc. apply repeat_spec in Hc. now subst c.
Qed.

(** The clustering path, run on a non-empty sample for [k >= 1]: the
    palette is the colours of [k] centroids, each at some position. *)
Lemma extractColorsKMeans_clustered imageData k rnd p ps :
  (1 <= k)%nat ->
  samplePixels imageData = Some (p :: ps) ->
  exists (centroids : list Pixel) (colorPositions : list Position),
    List.length centroids = k /\
    List.length colorPositions = k /\
    fst (extractColorsKMeans imageData k rnd) =
      Returns (padResult imageData k
                 (mapIndexed (resultColor imageData colorPositions)
                             (firstn k centroids))).
Proof.
  intros Hk Hsample. unfold extractColorsKMeans. rewrite Hsample. unfold bind.
  pose proof (initializeDistinctCentroids_length (p :: ps) k rnd Hk) as Hinit.
  destruct (initializeDistinctCentroids (p :: ps) k rnd) as [centroids rnd1].
  cbn [fst] in Hinit.
  destruct (kMeansIterations_returns 15 (p :: ps) k centroids [] rnd1 Hk Hinit)
    as (ca & Hrun & Hlen).
  destruct (kMeansIterations 15 (p :: ps) k centroids [] rnd1) as [run rnd2].
  cbn [fst] in Hrun. subst run. unfold ret. cbn [fst].
  eexists. eexists. split; [|split; [|reflexivity]].
  - rewrite ensureDistinctColors_length. exact Hlen.
  - rewrite mapIndexed_length, ensureDistinctColors_length. exact Hlen.
Qed.

Lemma extractColorsKMeans_fallback imageData k rnd :
  samplePixels imageData = Some [] ->
  fst (extractColorsKMeans imageData k rnd)
  = Returns (repeat (neutralGray imageData) k).
Proof.
  intros Hsample. unfold extractColorsKMeans. rewrite Hsample.
  unfold ret. cbn [fst]. now rewrite fill_repeat.
Qed.

(** ** The harmony generator: size, determinism, consistency *)

(** C2: for every base colour, every ring count (so every one of 3 to 12)
    and each of the five harmony modes, [generateComplementaryColors]
    returns a sequence of exactly [rings] colours. *)
Theorem generateComplementaryColors_length baseColor rings mode :
  List.length (generateComplementaryColors baseColor rings mode) = rings.
Proof.
  unfold generateComplementaryColors.
  rewrite length_firstn, length_map, length_seq. apply Nat.min_id.
Qed.

(** C9: [generateComplementaryColors] is deterministic.  The result is a
    function of the arguments alone, and of the base colour only its hue,
    saturation and lightness are read: two calls whose base colours agree on
    these three fields, with the same ring count and mode, return the same
    sequence, element for element. *)
Theorem generateComplementaryColors_deterministic base1 base2 rings mode :
  h base1 = h base2 -> s base1 = s base2 -> l base1 = l base2 ->
  generateComplementaryColors base1 rings mode
  = generateComplementaryColors base2 rings mode.
Proof.
  intros Hh Hs Hl. unfold generateComplementaryColors. f_equal.
  apply map_ext. intros i. unfold ringColor, newH, newL.
  rewrite Hh, Hs, Hl. reflexivity.
Qed.

Lemma generateComplementaryColors_deterministic_witness :
  h vermilion = h vermilionTag /\
  generateComplementaryColors vermilion 4 Tetradic
  = generateComplementaryColors vermilionTag 4 Tetradic.
Proof.
  split; [vm_compute; reflexivity|].
  apply (generateComplementaryColors_deterministic vermilion vermilionTag 4 Tetradic);
    vm_compute; reflexivity.
Defined.

(** C6: every colour returned by [generateComplementaryColors] and every
    colour returned by [extractColorsKMeans] (which does return on a
    well-formed image for [k >= 1]) has derived fields that agree with its
    channels: its [hex] is [rgbToHex] of its own r, g, b and its h, s, l are
    [rgbToHsl] of its own r, g, b. *)
Theorem returned_colors_consistent imageData k rnd baseColor rings mode :
  wellFormed imageData -> (1 <= k)%nat ->
  Forall consistent (generateComplementaryColors baseColor rings mode) /\
  exists colors,
    fst (extractColorsKMeans imageData k rnd) = Returns colors /\
    Forall consistent colors.
Proof.
  intros Hwf Hk. split.
  - unfold generateComplementaryColors. apply Forall_forall. intros c Hc.
    apply firstn_incl in Hc. apply in_map_iff in Hc. destruct Hc as (i & <- & _).
    apply colorOfRgb_consistent.
  - destruct (samplePixels_defined imageData Hwf) as ([|p ps] & Hsample & _).
    + exists (repeat (neutralGray imageData) k).
      split; [now apply extractColorsKMeans_fallback|].
      apply Forall_forall. intros c Hc. apply repeat_spec in Hc. subst c.
      apply neutralGray_consistent.
    + destruct (extractColorsKMeans_clustered imageData k rnd p ps Hk Hsample)
        as (centroids & colorPositions & _ & _ & Hrun).
      eexists. split; [exact Hrun|].
      apply padResult_Forall; [apply neutralGray_consistent|].
      apply mapIndexed_Forall. intros rgb idx. apply resultColor_consistent.
Qed.

Lemma returned_colors_consistent_witness :
  wellFormed stripImage /\ (1 <= 3)%nat /\
  Forall consistent (generateComplementaryColors vermilion 5 Analogous) /\
  exists colors,
    fst (extractColorsKMeans stripImage 3 countingSource) = Returns colors /\
    Forall consistent colors.
Proof.
  split; [reflexivity|]. split; [lia|].
  apply (returned_colors_consistent stripImage 3 countingSource vermilion 5 Analogous);
    [reflexivity|lia].
Defined.

(** ** The extraction: reads, fallback, size *)

(** C10: when the buffer holds exactly [4 * width * height] bytes, every
    access of the sampling loop (the reads at [i], [i + 1] and [i + 2] for
    each visited offset [i = (y * width + x) * 4]) is inside the buffer,
    though the guard only compares [i] itself with the length. *)
Theorem sampler_reads_in_bounds imageData :
  wellFormed imageData ->
  Forall (fun i => (i < List.length (data imageData))%nat) (sampleReads imageData).
Proof.
  intros Hwf. apply Forall_forall. intros i Hi.
  unfold sampleReads in Hi. apply in_flat_map in Hi.
  destruct Hi as (xy & Hxy & Hi).
  apply filter_In in Hxy. destruct Hxy as [Hgrid _].
  pose proof (offset_inside imageData xy Hwf Hgrid) as Hoff.
  cbn [In] in Hi. lia.
Qed.

Lemma sampler_reads_in_bounds_witness :
  wellFormed stripImage /\
  Forall (fun i => (i < List.length (data stripImage))%nat) (sampleReads stripImage).
Proof.
  split; [reflexivity|].
  apply (sampler_reads_in_bounds stripImage). reflexivity.
Defined.

(** C7: when the sampling loop collects no pixel (as for a buffer of width
    or height zero), clustering is skipped and, for every [k], the result
    is [k] copies of the neutral gray: channels (128, 128, 128), hex
    [#808080], h = 0, s = 0, l = 50, placed at the midpoint
    [(width / 2, height / 2)], which is [(0, 0)] when the image has neither
    width nor height. *)
Theorem empty_sample_gives_gray imageData k rnd :
  sampledPoints imageData = [] ->
  fst (extractColorsKMeans imageData k rnd) =
    Returns (repeat
            {| r := 128; g := 128; b := 128; h := 0; s := 0; l := 50;
               hex := "#808080";
               position :=
                 Some (mkPosition (ofNat (width imageData) / 2)
                                  (ofNat (height imageData) / 2)) |} k) /\
  (width imageData = O -> height imageData = O ->
   midpoint imageData = mkPosition 0 0).
Proof.
  intros Hempty. split.
  - apply extractColorsKMeans_fallback. unfold samplePixels.
    rewrite Hempty. reflexivity.
  - intros Hw Hh. unfold midpoint. rewrite Hw, Hh. reflexivity.
Qed.

Lemma empty_sample_gives_gray_witness :
  sampledPoints emptyColumn = [] /\
  fst (extractColorsKMeans emptyColumn 3 countingSource) =
    Returns (repeat
            {| r := 128; g := 128; b := 128; h := 0; s := 0; l := 50;
               hex := "#808080";
               position :=
                 Some (mkPosition (ofNat (width emptyColumn) / 2)
                                  (ofNat (height emptyColumn) / 2)) |} 3).
Proof.
  split; [reflexivity|].
  apply (empty_sample_gives_gray emptyColumn 3 countingSource). reflexivity.
Defined.

(** C1: for every image whose buffer holds four bytes per pixel, or no byte
    at all, and every [k >= 1], [extractColorsKMeans] returns, and what it
    returns is a sequence of exactly [k] colours. *)
Theorem extractColorsKMeans_length imageData k rnd :
  wellFormed imageData \/ data imageData = [] ->
  (1 <= k)%nat ->
  exists colors,
    fst (extractColorsKMeans imageData k rnd) = Returns colors /\
    List.length colors = k.
Proof.
  intros Himg Hk.
  assert (Hsample : exists pixels, samplePixels imageData = Some pixels).
  { destruct Himg as [Hwf|Hnil].
    - destruct (samplePixels_defined imageData Hwf) as (pixels & Hs & _). eauto.
    - exists []. apply empty_image_no_sample. auto. }
  destruct Hsample as ([|p ps] & Hsample).
  - exists (repeat (neutralGray imageData) k).
    split; [now apply extractColorsKMeans_fallback|apply repeat_length].
  - destruct (extractColorsKMeans_clustered imageData k rnd p ps Hk Hsample)
      as (centroids & colorPositions & Hlen & _ & Hrun).
    eexists. split; [exact Hrun|].
    apply padResult_length.
    rewrite mapIndexed_length, length_firstn. lia.
Qed.

Lemma extractColorsKMeans_length_witness :
  wellFormed stripImage /\ (1 <= 3)%nat /\
  exists colors,
    fst (extractColorsKMeans stripImage 3 countingSource) = Returns colors /\
    List.length colors = 3%nat.
Proof.
  split; [reflexivity|]. split; [lia|].
  apply (extractColorsKMeans_length stripImage 3 countingSource);
    [left; reflexivity|lia].
Defined.

(** ** The round trip through HSL *)

Lemma zRange_In lo n z : (lo <= z < lo + Z.of_nat n)%Z -> In z (zRange lo n).
Proof.
  intros Hz. unfold zRange. apply in_map_iff.
  exists (Z.to_nat (z - lo)). split; [lia|]. apply in_seq. lia.
Qed.

Lemma numbers_In lo n z :
  (lo <= z < lo + Z.of_nat n)%Z -> In (ofZ z) (numbers lo n).
Proof. intros Hz. unfold numbers. apply in_map. now apply zRange_In. Qed.

Lemma forallb_In {A} (f : A -> bool) xs x :
  forallb f xs = true -> In x xs -> f x = true.
Proof. intros H Hin. rewrite forallb_forall in H. auto. Qed.

Lemma byteValues_In z : (0 <= z <= 255)%Z -> In (ofZ z) byteValues.
Proof. intros Hz. apply numbers_In. lia. Qed.

(** C4, as stated, fails: pure red with two units of green, (255, 2, 0),
    has HSL (0, 100, 50), which converts back to (255, 0, 0); the green
    channel has moved by 2. *)
Lemma roundTrip_within_1_counterexample :
  roundTrip 255 2 0 = mkRgb 255 0 0 /\ roundTripWithin 1 255 2 0 = false.
Proof. split; vm_compute; reflexivity. Qed.

Lemma roundedHue_eq p q t :
  roundedHue (1 / 6) (1 / 2) (2 / 3) p q
             (Math_round (p * 255)) (Math_round (q * 255)) t
  = Math_round (hue2rgb p q t * 255).
Proof.
  unfold roundedHue, hue2rgb. cbv zeta.
  destruct (t <? 0);
    [destruct (1 <? t + 1)|destruct (1 <? t)];
    repeat match goal with
           | |- context [if ?c then _ else _] => destruct c
           end; reflexivity.
Qed.

Lemma roundTripWithin_staged d5 r g b :
  roundTripWithin d5 r g b
  = stagedCheck d5 hueConstants (Math_max3 (r / 255) (g / 255) (b / 255))
                (Math_min3 (r / 255) (g / 255) (b / 255))
                r g b (r / 255) (g / 255) (b / 255).
Proof.
  unfold roundTripWithin, roundTrip, rgbToHsl, hslToRgb, stagedCheck, stagedWithin.
  cbn [hueConstants third sixth half twoThirds].
  generalize (Math_max3 (r / 255) (g / 255) (b / 255)) as max.
  generalize (Math_min3 (r / 255) (g / 255) (b / 255)) as min.
  intros min max. cbv zeta.
  destruct (negb (max =? min)); cbn [hsl_h hsl_s hsl_l].
  - match goal with
    | |- context [if ?c =? 0 then _ else _] => destruct (c =? 0)
    end; cbn [rgb_r rgb_g rgb_b]; rewrite ?roundedHue_eq; reflexivity.
  - match goal with
    | |- context [if ?c =? 0 then _ else _] => destruct (c =? 0)
    end; cbn [rgb_r rgb_g rgb_b]; rewrite ?roundedHue_eq; reflexivity.
Qed.

Lemma bytePairs_checked : bytePairsOK (zRange 0 256) = true.
Proof. vm_cast_no_check (eq_refl true). Qed.

Lemma bytePairsOK_In zs a b :
  bytePairsOK zs = true -> In a zs -> In b zs ->
  (ofZ a <=? ofZ b) = (a <=? b)%Z /\
  Math_max (ofZ a / 255) (ofZ b / 255) = ofZ (Z.max a b) / 255 /\
  Math_min (ofZ a / 255) (ofZ b / 255) = ofZ (Z.min a b) / 255.
Proof.
  intros Hall Ha Hb. unfold bytePairsOK in Hall.
  pose proof (forallb_In _ _ a Hall Ha) as H1. cbv beta in H1.
  pose proof (forallb_In _ _ b H1 Hb) as H2. cbv beta in H2.
  apply andb_prop in H2. destruct H2 as [H2 Hmin].
  apply andb_prop in H2. destruct H2 as [Hle Hmax].
  apply Bool.eqb_prop in Hle. apply Leibniz.eqb_spec in Hmax, Hmin. auto.
Qed.

Lemma bytePair a b :
  (0 <= a <= 255)%Z -> (0 <= b <= 255)%Z ->
  (ofZ a <=? ofZ b) = (a <=? b)%Z /\
  Math_max (ofZ a / 255) (ofZ b / 255) = ofZ (Z.max a b) / 255 /\
  Math_min (ofZ a / 255) (ofZ b / 255) = ofZ (Z.min a b) / 255.
Proof.
  intros Ha Hb.
  apply (bytePairsOK_In _ a b bytePairs_checked); apply zRange_In; lia.
Qed.

Lemma byte_extremes r g b :
  (0 <= r <= 255)%Z -> (0 <= g <= 255)%Z -> (0 <= b <= 255)%Z ->
  Math_max3 (ofZ r / 255) (ofZ g / 255) (ofZ b / 255)
  = ofZ (Z.max (Z.max r g) b) / 255 /\
  Math_min3 (ofZ r / 255) (ofZ g / 255) (ofZ b / 255)
  = ofZ (Z.min (Z.min r g) b) / 255.
Proof.
  intros Hr Hg Hb. unfold Math_max3, Math_min3.
  destruct (bytePair r g Hr Hg) as (_ & -> & ->).
  destruct (bytePair (Z.max r g) b ltac:(lia) Hb) as (_ & -> & _).
  destruct (bytePair (Z.min r g) b ltac:(lia) Hb) as (_ & _ & ->).
  split; reflexivity.
Qed.

Lemma sortedOK_In d5 k Ms bytes M m c :
  sortedOK d5 k Ms bytes = true -> In M Ms -> In m bytes -> In c bytes ->
  (m <=? M) = true -> (m <=? c) = true -> (c <=? M) = true ->
  stagedCheck d5 k (M / 255) (m / 255) M c m (M / 255) (c / 255) (m / 255) = true /\
  stagedCheck d5 k (M / 255) (m / 255) M m c (M / 255) (m / 255) (c / 255) = true /\
  stagedCheck d5 k (M / 255) (m / 255) c M m (c / 255) (M / 255) (m / 255) = true /\
  stagedCheck d5 k (M / 255) (m / 255) m M c (m / 255) (M / 255) (c / 255) = true /\
  stagedCheck d5 k (M / 255) (m / 255) c m M (c / 255) (m / 255) (M / 255) = true /\
  stagedCheck d5 k (M / 255) (m / 255) m c M (m / 255) (c / 255) (M / 255) = true.
Proof.
  intros Hall HM Hm Hc HmM Hmc HcM. unfold sortedOK in Hall.
  pose proof (forallb_In _ _ M Hall HM) as H1. cbv beta zeta in H1.
  pose proof (forallb_In _ _ m H1 Hm) as H2. cbv beta in H2.
  rewrite HmM in H2. cbv zeta in H2.
  pose proof (forallb_In _ _ c H2 Hc) as H3. cbv beta in H3.
  rewrite Hmc, HcM in H3. cbn [andb] in H3. cbv zeta in H3.
  repeat (apply andb_prop in H3; destruct H3 as [H3 ?]).
  repeat split; assumption.
Qed.

(** All byte triples, grouped by their largest and smallest channel. *)
Lemma sortedTriples_checked :
  sortedOK 5 hueConstants (numbers 0 256) (numbers 0 256) = true.
Proof. vm_cast_no_check (eq_refl true). Qed.

Lemma byte_le x y :
  (0 <= x <= 255)%Z -> (0 <= y <= 255)%Z -> (x <= y)%Z -> (ofZ x <=? ofZ y) = true.
Proof.
  intros Hx Hy Hxy. destruct (bytePair x y Hx Hy) as (-> & _). now apply Z.leb_le.
Qed.

(** The six orders of the bytes [m <= c <= M]. *)
Lemma sorted_triple M c m :
  (0 <= m)%Z -> (m <= c)%Z -> (c <= M)%Z -> (M <= 255)%Z ->
  stagedCheck 5 hueConstants (ofZ M / 255) (ofZ m / 255) (ofZ M) (ofZ c) (ofZ m)
              (ofZ M / 255) (ofZ c / 255) (ofZ m / 255) = true /\
  stagedCheck 5 hueConstants (ofZ M / 255) (ofZ m / 255) (ofZ M) (ofZ m) (ofZ c)
              (ofZ M / 255) (ofZ m / 255) (ofZ c / 255) = true /\
  stagedCheck 5 hueConstants (ofZ M / 255) (ofZ m / 255) (ofZ c) (ofZ M) (ofZ m)
              (ofZ c / 255) (ofZ M / 255) (ofZ m / 255) = true /\
  stagedCheck 5 hueConstants (ofZ M / 255) (ofZ m / 255) (ofZ m) (ofZ M) (ofZ c)
              (ofZ m / 255) (ofZ M / 255) (ofZ c / 255) = true /\
  stagedCheck 5 hueConstants (ofZ M / 255) (ofZ m / 255) (ofZ c) (ofZ m) (ofZ M)
              (ofZ c / 255) (ofZ m / 255) (ofZ M / 255) = true /\
  stagedCheck 5 hueConstants (ofZ M / 255) (ofZ m / 255) (ofZ m) (ofZ c) (ofZ M)
              (ofZ m / 255) (ofZ c / 255) (ofZ M / 255) = true.
Proof.
  intros H0 H1 H2 H3.
  apply (sortedOK_In 5 _ _ _ (ofZ M) (ofZ m) (ofZ c) sortedTriples_checked).
  - apply numbers_In; lia.
  - apply numbers_In; lia.
  - apply numbers_In; lia.
  - apply byte_le; lia.
  - apply byte_le; lia.
  - apply byte_le; lia.
Qed.

(** C4, amended: for all integers r, g, b in [0, 255], [hslToRgb] applied
    to the three fields of [rgbToHsl(r, g, b)] differs from (r, g, b) by at
    most 5 in each channel. *)
Theorem roundTrip_within_5 (r g b : Z) :
  (0 <= r <= 255)%Z -> (0 <= g <= 255)%Z -> (0 <= b <= 255)%Z ->
  roundTripWithin 5 (ofZ r) (ofZ g) (ofZ b) = true.
Proof.
  intros Hr Hg Hb. rewrite roundTripWithin_staged.
  destruct (byte_extremes r g b Hr Hg Hb) as [-> ->].
  assert (Horder : ((g <= r /\ b <= g) \/ (b <= r /\ g <= b) \/
                    (r <= g /\ b <= r) \/ (b <= g /\ r <= b) \/
                    (r <= b /\ g <= r) \/ (g <= b /\ r <= g))%Z) by lia.
  destruct Horder as [H|[H|[H|[H|[H|H]]]]]; destruct H as [H1 H2].
  - replace (Z.max (Z.max r g) b) with r by lia.
    replace (Z.min (Z.min r g) b) with b by lia.
    exact (proj1 (sorted_triple r g b ltac:(lia) ltac:(lia) ltac:(lia) ltac:(lia))).
  - replace (Z.max (Z.max r g) b) with r by lia.
    replace (Z.min (Z.min r g) b) with g by lia.
    exact (proj1 (proj2 (sorted_triple r b g ltac:(lia) ltac:(lia) ltac:(lia) ltac:(lia)))).
  - replace (Z.max (Z.max r g) b) with g by lia.
    replace (Z.min (Z.min r g) b) with b by lia.
    exact (proj1 (proj2 (proj2 (sorted_triple g r b ltac:(lia) ltac:(lia) ltac:(lia) ltac:(lia))))).
  - replace (Z.max (Z.max r g) b) with g by lia.
    replace (Z.min (Z.min r g) b) with r by lia.
    exact (proj1 (proj2 (proj2 (proj2
             (sorted_triple g b r ltac:(lia) ltac:(lia) ltac:(lia) ltac:(lia)))))).
  - replace (Z.max (Z.max r g) b) with b by lia.
    replace (Z.min (Z.min r g) b) with g by lia.
    exact (proj1 (proj2 (proj2 (proj2 (proj2
             (sorted_triple b r g ltac:(lia) ltac:(lia) ltac:(lia) ltac:(lia))))))).
  - replace (Z.max (Z.max r g) b) with b by lia.
    replace (Z.min (Z.min r g) b) with r by lia.
    exact (proj2 (proj2 (proj2 (proj2 (proj2
             (sorted_triple b g r ltac:(lia) ltac:(lia) ltac:(lia) ltac:(lia))))))).
Qed.

Lemma roundTrip_within_5_witness :
  (0 <= 2 <= 255)%Z /\ (0 <= 228 <= 255)%Z /\ (0 <= 230 <= 255)%Z /\
  roundTripWithin 5 (ofZ 2) (ofZ 228) (ofZ 230) = true.
Proof.
  repeat (split; [lia|]). apply (roundTrip_within_5 2 228 230); lia.
Defined.

(** X25: the bound 5 is reached: (2, 228, 230) has HSL (181, 98, 45),
    which converts back to (2, 223, 227); the green channel has moved
    by 5, so no bound of 4 holds for all colours. *)
Theorem roundTrip_bound_5_reached :
  rgbToHsl 2 228 230 = mkHsl 181 98 45 /\
  roundTrip 2 228 230 = mkRgb 2 223 227 /\
  roundTripWithin 4 2 228 230 = false.
Proof. repeat split; vm_compute; reflexivity. Qed.

(** The grays, and the six families of fully saturated colours. *)
Lemma roundTrip_families_checked :
  forallb (fun v =>
             roundTripWithin 1 v v v &&
             (roundTripWithin 2 255 v 0 && roundTripWithin 2 v 255 0 &&
              roundTripWithin 2 0 255 v && roundTripWithin 2 0 v 255 &&
              roundTripWithin 2 v 0 255 && roundTripWithin 2 255 0 v))
          byteValues = true.
Proof. vm_cast_no_check (eq_refl true). Qed.

(** X26: for every integer v in [0, 255], the round trip moves no channel
    of the gray (v, v, v) by more than 1, and no channel of a fully
    saturated colour (one channel 255, one channel 0, the third v) by more
    than 2. *)
Theorem roundTrip_gray_and_saturated (v : Z) :
  (0 <= v <= 255)%Z ->
  roundTripWithin 1 (ofZ v) (ofZ v) (ofZ v) = true /\
  (roundTripWithin 2 255 (ofZ v) 0 && roundTripWithin 2 (ofZ v) 255 0 &&
   roundTripWithin 2 0 255 (ofZ v) && roundTripWithin 2 0 (ofZ v) 255 &&
   roundTripWithin 2 (ofZ v) 0 255 && roundTripWithin 2 255 0 (ofZ v)) = true.
Proof.
  intros Hv.
  pose proof (forallb_In _ _ (ofZ v) roundTrip_families_checked (byteValues_In v Hv))
    as H1.
  cbv beta in H1. apply andb_prop in H1. exact H1.
Qed.

Lemma roundTrip_gray_and_saturated_witness :
  (0 <= 200 <= 255)%Z /\
  roundTripWithin 1 (ofZ 200) (ofZ 200) (ofZ 200) = true /\
  (roundTripWithin 2 255 (ofZ 200) 0 && roundTripWithin 2 (ofZ 200) 255 0 &&
   roundTripWithin 2 0 255 (ofZ 200) && roundTripWithin 2 0 (ofZ 200) 255 &&
   roundTripWithin 2 (ofZ 200) 0 255 && roundTripWithin 2 255 0 (ofZ 200)) = true.
Proof.
  split; [lia|]. apply (roundTrip_gray_and_saturated 200). lia.
Defined.

(** ** The hue of the generated colours *)

(** On integer hues the remainder [%] of the generator is the integer
    remainder. *)
Lemma hue_targets_checked :
  forallb (fun off => forallb (fun hz => hueTargetOK hz off) (zRange 0 361))
          hueOffsets = true.
Proof. vm_compute. reflexivity. Qed.

Lemma hue_target hz off :
  (0 <= hz <= 360)%Z -> In off hueOffsets ->
  rem (ofZ hz + ofZ off) 360 = ofZ ((hz + off) mod 360).
Proof.
  intros Hhz Hoff. apply Leibniz.eqb_spec.
  pose proof (forallb_In _ _ off hue_targets_checked Hoff) as H1. cbv beta in H1.
  exact (forallb_In _ _ hz H1 (zRange_In 0 361 hz ltac:(lia))).
Qed.

Lemma generated_In base rings mode c :
  In c (generateComplementaryColors base rings mode) ->
  exists i, (i < rings)%nat /\ c = ringColor mode base rings i.
Proof.
  unfold generateComplementaryColors. intros Hc. apply firstn_incl in Hc.
  apply in_map_iff in Hc. destruct Hc as (i & <- & Hi).
  apply in_seq in Hi. exists i. split; [lia|reflexivity].
Qed.

Lemma generated_nth base rings mode i :
  (i < rings)%nat ->
  nth_error (generateComplementaryColors base rings mode) i
  = Some (ringColor mode base rings i).
Proof.
  intros Hi. unfold generateComplementaryColors.
  rewrite firstn_all2 by (rewrite length_map, length_seq; lia).
  rewrite nth_error_map, nth_error_seq.
  destruct (Nat.ltb_spec i rings); [reflexivity|lia].
Qed.

(** C3, as stated, fails: from the base colour of hue 3, saturation 100 and
    lightness 40, the first of three complementary colours is built at hue
    183 and lightness 10; its channels round to (0, 48, 51), whose hue is
    184, and that is the value of its field [h]. *)
Lemma complementary_hue_counterexample :
  validBase vermilion /\
  exists c,
    nth_error (generateComplementaryColors vermilion 3 Complementary) 0 = Some c /\
    h c = 184 /\ rem (h vermilion + 180) 360 = 183 /\
    h c <> rem (h vermilion + 180) 360.
Proof.
  split.
  - exists 3%Z, 100%Z, 40%Z. repeat split; try lia; vm_compute; reflexivity.
  - eexists. split; [reflexivity|]. split; [vm_compute; reflexivity|].
    split; [vm_compute; reflexivity|].
    intros E. apply (f_equal (fun x => x =? 183)) in E.
    vm_compute in E. discriminate E.
Qed.

(** C3, amended: for a base colour of integer hue [hz] in [0, 360], every
    entry of the complementary ring is the colour of the channels
    [hslToRgb((hz + 180) mod 360, base.s, L)], [L] the clamped lightness of
    its place in the ring; its field [h] is the hue [rgbToHsl] finds for
    these rounded channels. *)
Theorem complementary_entries base rings hz c :
  h base = ofZ hz -> (0 <= hz <= 360)%Z ->
  In c (generateComplementaryColors base rings Complementary) ->
  exists i, (i < rings)%nat /\
    c = colorOfRgb (hslToRgb (ofZ ((hz + 180) mod 360)) (s base)
                             (newL Complementary base rings i)).
Proof.
  intros Hh Hhz Hc. apply generated_In in Hc. destruct Hc as (i & Hi & ->).
  exists i. split; [assumption|]. unfold ringColor. cbn [newH]. rewrite Hh.
  change 180 with (ofZ 180).
  rewrite hue_target by (assumption || (cbn; tauto)). reflexivity.
Qed.

Lemma complementary_entries_witness :
  h vermilion = ofZ 3 /\ (0 <= 3 <= 360)%Z /\
  In (ringColor Complementary vermilion 3 0)
     (generateComplementaryColors vermilion 3 Complementary) /\
  exists i, (i < 3)%nat /\
    ringColor Complementary vermilion 3 0 =
    colorOfRgb (hslToRgb (ofZ ((3 + 180) mod 360)) (s vermilion)
                         (newL Complementary vermilion 3 i)).
Proof.
  assert (Hin : In (ringColor Complementary vermilion 3 0)
                   (generateComplementaryColors vermilion 3 Complementary))
    by (left; reflexivity).
  split; [reflexivity|]. split; [lia|]. split; [exact Hin|].
  apply (complementary_entries vermilion 3 3 _ eq_refl); [lia|exact Hin].
Defined.

(** C8, as stated, fails: from the base colour of hue 3, saturation 100 and
    lightness 30, entry 0 of the triadic ring of six is built at hue 3 and
    lightness 10; its channels round to (51, 3, 0), whose hue is 4. *)
Lemma triadic_hue_counterexample :
  validBase darkVermilion /\
  exists c,
    nth_error (generateComplementaryColors darkVermilion 6 Triadic) 0 = Some c /\
    h c = 4 /\ rem (h darkVermilion + 0) 360 = 3 /\
    h c <> rem (h darkVermilion + 0) 360.
Proof.
  split.
  - exists 3%Z, 100%Z, 30%Z. repeat split; try lia; vm_compute; reflexivity.
  - eexists. split; [reflexivity|]. split; [vm_compute; reflexivity|].
    split; [vm_compute; reflexivity|].
    intros E. apply (f_equal (fun x => x =? 3)) in E.
    vm_compute in E. discriminate E.
Qed.

(** C8, amended: for a base colour of integer hue [hz] in [0, 360], entry
    [i] of the triadic ring of six is the colour of the channels
    [hslToRgb((hz + 120 * (i mod 3)) mod 360, base.s, L_i)]: entries 0 and
    3 are built at offset 0, entries 1 and 4 at offset 120, entries 2 and 5
    at offset 240; the field [h] is the hue of the rounded channels. *)
Theorem triadic_entries base hz i :
  h base = ofZ hz -> (0 <= hz <= 360)%Z -> (i < 6)%nat ->
  nth_error (generateComplementaryColors base 6 Triadic) i =
    Some (colorOfRgb
            (hslToRgb (ofZ ((hz + 120 * Z.of_nat (i mod 3)) mod 360)) (s base)
                      (newL Triadic base 6 i))).
Proof.
  intros Hh Hhz Hi. rewrite generated_nth by assumption. f_equal.
  unfold ringColor. cbn [newH]. rewrite Hh.
  assert (Hoff : nth (i mod 3) triadicHues nan = ofZ (120 * Z.of_nat (i mod 3))
                 /\ In (120 * Z.of_nat (i mod 3))%Z hueOffsets).
  { pose proof (Nat.mod_upper_bound i 3 ltac:(lia)) as Hm.
    destruct (i mod 3)%nat as [|[|[|n]]]; [| | |lia];
      (split; [reflexivity|cbn; tauto]). }
  destruct Hoff as [-> Hoff]. rewrite hue_target by assumption. reflexivity.
Qed.

Lemma triadic_entries_witness :
  h darkVermilion = ofZ 3 /\ (0 <= 3 <= 360)%Z /\ (4 < 6)%nat /\
  nth_error (generateComplementaryColors darkVermilion 6 Triadic) 4 =
    Some (colorOfRgb
            (hslToRgb (ofZ ((3 + 120 * Z.of_nat (4 mod 3)) mod 360)) (s darkVermilion)
                      (newL Triadic darkVermilion 6 4))).
Proof.
  split; [reflexivity|]. split; [lia|]. split; [lia|].
  apply (triadic_entries darkVermilion 3 4 eq_refl); lia.
Defined.

(** ** The clustering helpers *)

Lemma randomPixel_In pixels rnd :
  pixels <> [] -> In (fst (randomPixel pixels rnd)) pixels.
Proof.
  intros Hne. unfold randomPixel, bind, randomIndex, ret. cbn [fst].
  apply nth_In. apply Nat.mod_upper_bound.
  destruct pixels; [congruence|discriminate].
Qed.

Lemma tryCandidates_In tries pixels centroids best maxMin rnd c :
  pixels <> [] ->
  (forall b, best = Some b -> In b pixels) ->
  fst (tryCandidates tries pixels centroids best maxMin rnd) = Some c ->
  In c pixels.
Proof.
  intros Hne. revert best maxMin rnd.
  induction tries as [|tries IH]; intros best maxMin rnd Hbest;
    cbn [tryCandidates].
  - unfold ret. cbn [fst]. auto.
  - unfold bind. pose proof (randomPixel_In pixels rnd Hne) as Hcand.
    destruct (randomPixel pixels rnd) as [candidate rnd1]. cbn [fst] in Hcand.
    destruct (maxMin <? minDistToExisting candidate centroids).
    + apply IH. intros b [= <-]. exact Hcand.
    + apply IH. exact Hbest.
Qed.

Lemma growCentroids_In fuel pixels k centroids rnd :
  pixels <> [] ->
  Forall (fun c => In c pixels) centroids ->
  Forall (fun c => In c pixels) (fst (growCentroids fuel pixels k centroids rnd)).
Proof.
  intros Hne. revert centroids rnd.
  induction fuel as [|fuel IH]; intros centroids rnd Hall; cbn [growCentroids].
  - exact Hall.
  - destruct (List.length centroids <? k)%nat; [|exact Hall].
    unfold bind.
    pose proof (tryCandidates_In 50 pixels centroids None 0 rnd) as Hbest.
    destruct (tryCandidates 50 pixels centroids None 0 rnd) as [best rnd1].
    cbn [fst] in Hbest.
    assert (Hnext : In (fst (match best with
                             | Some c => ret c
                             | None => randomPixel pixels
                             end rnd1)) pixels).
    { destruct best as [c|].
      - unfold ret. cbn [fst]. apply (Hbest c Hne); [discriminate|reflexivity].
      - apply randomPixel_In. exact Hne. }
    destruct (match best with Some c => ret c | None => randomPixel pixels end rnd1)
      as [next rnd2].
    cbn [fst] in Hnext. apply IH. apply Forall_app. split; [exact Hall|].
    constructor; [exact Hnext|constructor].
Qed.

(** X1: the seeding returns [max(k, 1)] centroids, each of them one of the
    sampled pixels. *)
Theorem initializeDistinctCentroids_seeds pixels k rnd :
  pixels <> [] ->
  List.length (fst (initializeDistinctCentroids pixels k rnd)) = Nat.max k 1 /\
  Forall (fun c => In c pixels) (fst (initializeDistinctCentroids pixels k rnd)).
Proof.
  intros Hne. unfold initializeDistinctCentroids, bind.
  pose proof (randomPixel_In pixels rnd Hne) as Hfirst.
  destruct (randomPixel pixels rnd) as [first rnd1]. cbn [fst] in Hfirst.
  split.
  - rewrite growCentroids_length; cbn [List.length]; lia.
  - apply growCentroids_In; [exact Hne|]. constructor; [exact Hfirst|constructor].
Qed.

Lemma initializeDistinctCentroids_seeds_witness :
  [(1, 2, 3); (4, 5, 6)] <> ([] : list Pixel) /\
  List.length (fst (initializeDistinctCentroids [(1, 2, 3); (4, 5, 6)] 3 countingSource))
  = Nat.max 3 1 /\
  Forall (fun c => In c [(1, 2, 3); (4, 5, 6)])
         (fst (initializeDistinctCentroids [(1, 2, 3); (4, 5, 6)] 3 countingSource)).
Proof.
  split; [discriminate|].
  apply (initializeDistinctCentroids_seeds [(1, 2, 3); (4, 5, 6)] 3 countingSource).
  discriminate.
Defined.

(** X2: with [k >= 1] centroids, the index the assignment step computes for
    a pixel is below [k]: [clusters[closestCentroid]] is always an array. *)
Theorem assignments_below_k centroids pixels k :
  (1 <= k)%nat -> List.length centroids = k ->
  Forall (fun idx => (idx < k)%nat) (map (closestCentroid centroids) pixels).
Proof.
  intros Hk Hlen. apply Forall_forall. intros idx Hidx.
  apply in_map_iff in Hidx. destruct Hidx as (pixel & <- & _).
  pose proof (closestCentroid_bound centroids pixel). lia.
Qed.

Lemma assignments_below_k_witness :
  (1 <= 2)%nat /\ List.length [(1, 2, 3); (4, 5, 6)] = 2%nat /\
  Forall (fun idx => (idx < 2)%nat)
         (map (closestCentroid [(1, 2, 3); (4, 5, 6)]) [(9, 9, 9); (0, 0, 0)]).
Proof.
  split; [lia|]. split; [reflexivity|].
  apply (assignments_below_k [(1, 2, 3); (4, 5, 6)] [(9, 9, 9); (0, 0, 0)] 2);
    [lia|reflexivity].
Defined.

(** X3: asked for no colour at all, the extraction returns the empty list
    when the sampling loop collects nothing, and throws otherwise (the
    first pixel is pushed to [clusters[0]], which does not exist). *)
Theorem extractColorsKMeans_zero imageData rnd :
  wellFormed imageData ->
  fst (extractColorsKMeans imageData 0 rnd) =
    match sampledPoints imageData with
    | [] => Returns []
    | _ :: _ => Throws
    end.
Proof.
  intros Hwf.
  destruct (samplePixels_defined imageData Hwf) as (pixels & Hsample & Hlen).
  destruct pixels as [|p ps].
  - destruct (sampledPoints imageData); [|discriminate Hlen].
    now apply extractColorsKMeans_fallback.
  - destruct (sampledPoints imageData); [discriminate Hlen|].
    unfold extractColorsKMeans. rewrite Hsample. unfold bind.
    destruct (initializeDistinctCentroids (p :: ps) 0 rnd) as [centroids rnd1].
    change 15%nat with (S 14). cbn [kMeansIterations map forallb].
    replace (closestCentroid centroids p <? 0)%nat with false
      by (symmetry; apply Nat.ltb_ge; lia).
    reflexivity.
Qed.

Lemma extractColorsKMeans_zero_witness :
  wellFormed stripImage /\
  fst (extractColorsKMeans stripImage 0 countingSource) =
    match sampledPoints stripImage with
    | [] => Returns []
    | _ :: _ => Throws
    end.
Proof.
  split; [reflexivity|].
  apply (extractColorsKMeans_zero stripImage countingSource). reflexivity.
Defined.

(** ** Distinctness *)

(** One step of [ensureDistinctColors] appends one colour. *)
Lemma ensureDistinctColors_from centroids pixels minDistance acc :
  exists tail,
    fold_left
      (fun distinctColors centroid =>
         if negb (tooClose minDistance centroid distinctColors)
         then distinctColors ++ [centroid]
         else
           match findDistinctReplacement centroid distinctColors pixels minDistance with
           | Some replacement => distinctColors ++ [replacement]
           | None =>
               distinctColors ++
               [(Math_min 255 (ch0 centroid + 30),
                 Math_min 255 (ch1 centroid + 30),
                 Math_min 255 (ch2 centroid + 30))]
           end) centroids acc = acc ++ tail /\
    List.length tail = List.length centroids /\
    (separated minDistance acc centroids = true -> tail = centroids).
Proof.
  revert acc. induction centroids as [|c cs IH]; intros acc; cbn [fold_left].
  - exists []. rewrite app_nil_r. repeat split; reflexivity.
  - cbn [separated].
    destruct (negb (tooClose minDistance c acc)) eqn:Hc.
    + destruct (IH (acc ++ [c])) as (tail & -> & Hlen & Hsep).
      exists (c :: tail). rewrite <- app_assoc. split; [reflexivity|].
      split; [cbn [List.length]; congruence|].
      cbn [andb]. intros H. now rewrite (Hsep H).
    + destruct (findDistinctReplacement c acc pixels minDistance) as [x|].
      * destruct (IH (acc ++ [x])) as (tail & -> & Hlen & _).
        exists (x :: tail). rewrite <- app_assoc. split; [reflexivity|].
        split; [cbn [List.length]; congruence|discriminate].
      * destruct (IH (acc ++ [(Math_min 255 (ch0 c + 30),
                               Math_min 255 (ch1 c + 30),
                               Math_min 255 (ch2 c + 30))]))
          as (tail & -> & Hlen & _).
        eexists (_ :: tail). rewrite <- app_assoc. split; [reflexivity|].
        split; [cbn [List.length]; congruence|discriminate].
Qed.

(** X4: [ensureDistinctColors] returns as many colours as it is given and
    never touches the first one. *)
Theorem ensureDistinctColors_keeps_first centroid centroids pixels minDistance :
  List.length (ensureDistinctColors (centroid :: centroids) pixels minDistance)
  = S (List.length centroids) /\
  hd_error (ensureDistinctColors (centroid :: centroids) pixels minDistance)
  = Some centroid.
Proof.
  split; [apply ensureDistinctColors_length|].
  unfold ensureDistinctColors. cbn [fold_left tooClose existsb negb].
  destruct (ensureDistinctColors_from centroids pixels minDistance ([] ++ [centroid]))
    as (tail & -> & _). reflexivity.
Qed.

(** X5: centroids that already are [minDistance] apart, each from the ones
    before it, come out unchanged. *)
Theorem ensureDistinctColors_separated centroids pixels minDistance :
  separated minDistance [] centroids = true ->
  ensureDistinctColors centroids pixels minDistance = centroids.
Proof.
  intros Hsep. unfold ensureDistinctColors.
  destruct (ensureDistinctColors_from centroids pixels minDistance [])
    as (tail & -> & _ & Htail).
  now rewrite (Htail Hsep).
Qed.

Lemma ensureDistinctColors_separated_witness :
  separated 60 [] [(255, 0, 0); (0, 0, 255)] = true /\
  ensureDistinctColors [(255, 0, 0); (0, 0, 255)] [(1, 2, 3)] 60
  = [(255, 0, 0); (0, 0, 255)].
Proof.
  split; [vm_compute; reflexivity|].
  apply (ensureDistinctColors_separated [(255, 0, 0); (0, 0, 255)] [(1, 2, 3)] 60).
  vm_compute. reflexivity.
Defined.

Lemma countColor_keys key counts k :
  In k (map fst (countColor key counts)) -> k = key \/ In k (map fst counts).
Proof.
  induction counts as [|[k' n] rest IH]; cbn [countColor map fst In].
  - intros [<-|[]]. now left.
  - destruct (pixel_eqb key k'); cbn [map fst In]; intuition.
Qed.

Lemma insertByCount_keys e sorted k :
  In k (map fst (insertByCount e sorted)) -> k = fst e \/ In k (map fst sorted).
Proof.
  induction sorted as [|e' rest IH]; cbn [insertByCount map In].
  - intros [<-|[]]. now left.
  - destruct (snd e' <? snd e)%nat; cbn [map In]; intuition.
Qed.

Lemma sortByCount_keys entries k :
  In k (map fst (sortByCount entries)) -> In k (map fst entries).
Proof.
  unfold sortByCount.
  enough (G : forall sorted,
             In k (map fst (fold_left (fun sorted e => insertByCount e sorted)
                                      entries sorted)) ->
             In k (map fst entries) \/ In k (map fst sorted))
    by (intros H; destruct (G [] H) as [H'|[]]; exact H').
  induction entries as [|e es IH]; intros sorted; cbn [fold_left map In].
  - auto.
  - intros H. apply IH in H. destruct H as [H|H]; [auto|].
    apply insertByCount_keys in H. intuition.
Qed.

Lemma counted_keys (pixels : list Pixel) idxs counts k :
  (forall i, In i idxs -> (i < List.length pixels)%nat) ->
  In k (map fst (fold_left (fun counts i => countColor (nth i pixels undefinedPixel) counts)
                           idxs counts)) ->
  In k pixels \/ In k (map fst counts).
Proof.
  revert counts. induction idxs as [|i idxs IH]; intros counts Hidx; cbn [fold_left].
  - auto.
  - intros H. apply IH in H; [|intros j Hj; apply Hidx; now right].
    destruct H as [H|H]; [auto|].
    apply countColor_keys in H. destruct H as [->|H]; [|auto].
    left. apply nth_In. apply Hidx. now left.
Qed.

(** X6: a replacement colour, when one is found, is a sampled pixel, and it
    is at least [minDistance] away from every colour accepted so far. *)
Theorem findDistinctReplacement_sound originalColor existingColors pixels
    minDistance candidate :
  findDistinctReplacement originalColor existingColors pixels minDistance
  = Some candidate ->
  In candidate pixels /\
  Forall (fun existing => (colorDistance candidate existing <? minDistance) = false)
         existingColors.
Proof.
  unfold findDistinctReplacement. intros Hfind.
  apply find_some in Hfind. destruct Hfind as [Hin Hfar]. split.
  - apply in_map_iff in Hin. destruct Hin as (e & <- & He).
    apply firstn_incl in He.
    assert (Hk : In (fst e) (map fst (sortByCount
                  (fold_left (fun counts i => countColor (nth i pixels undefinedPixel) counts)
                     (stride 10 (Nat.min (List.length pixels) 1000)) []))))
      by (apply in_map; exact He).
    apply sortByCount_keys in Hk. apply counted_keys in Hk.
    + destruct Hk as [Hk|[]]. exact Hk.
    + intros i Hi. unfold stride in Hi. apply strideFrom_below in Hi. lia.
  - apply Forall_forall. intros existing Hex.
    apply negb_true_iff in Hfar. unfold tooClose in Hfar.
    destruct (colorDistance candidate existing <? minDistance) eqn:E; [|reflexivity].
    assert (existsb (fun existing => colorDistance candidate existing <? minDistance)
                    existingColors = true)
      by (apply existsb_exists; eauto).
    congruence.
Qed.

Lemma findDistinctReplacement_sound_witness :
  findDistinctReplacement (0, 0, 0) [(0, 0, 0)] [(255, 0, 0); (1, 1, 1)] 60
  = Some (255, 0, 0) /\
  In (255, 0, 0) [(255, 0, 0); (1, 1, 1)] /\
  Forall (fun existing => (colorDistance (255, 0, 0) existing <? 60) = false)
         [(0, 0, 0)].
Proof.
  assert (H : findDistinctReplacement (0, 0, 0) [(0, 0, 0)] [(255, 0, 0); (1, 1, 1)] 60
              = Some (255, 0, 0)) by (vm_compute; reflexivity).
  split; [exact H|].
  exact (findDistinctReplacement_sound _ _ _ _ _ H).
Defined.

(** ** The sampling grid *)

Lemma strideFrom_length fuel y bound :
  (bound <= y + fuel)%nat ->
  List.length (strideFrom fuel 4 y bound) = ((bound - y + 3) / 4)%nat.
Proof.
  revert y. induction fuel as [|fuel IH]; intros y Hfuel; cbn [strideFrom].
  - replace (bound - y + 3)%nat with 3%nat by lia. reflexivity.
  - destruct (Nat.ltb_spec y bound) as [Hlt|Hge].
    + cbn [List.length]. rewrite IH by lia.
      destruct (Nat.le_gt_cases (y + 4) bound) as [Hfar|Hnear].
      * replace (bound - y + 3)%nat with (bound - (y + 4) + 3 + 1 * 4)%nat by lia.
        rewrite Nat.div_add by lia. lia.
      * replace (bound - (y + 4) + 3)%nat with 3%nat by lia.
        assert (H : (bound - y + 3 = 4 \/ bound - y + 3 = 5 \/ bound - y + 3 = 6)%nat)
          by lia.
        destruct H as [->|[->| ->]]; reflexivity.
    + replace (bound - y + 3)%nat with 3%nat by lia. reflexivity.
Qed.

Lemma stride_length bound : List.length (stride 4 bound) = ((bound + 3) / 4)%nat.
Proof.
  unfold stride. rewrite strideFrom_length by lia. now rewrite Nat.sub_0_r.
Qed.

Lemma sampleGrid_length imageData :
  List.length (sampleGrid imageData)
  = ((width imageData + 3) / 4 * ((height imageData + 3) / 4))%nat.
Proof.
  unfold sampleGrid. rewrite <- (stride_length (height imageData)).
  induction (stride 4 (height imageData)) as [|y ys IH]; cbn [flat_map List.length].
  - lia.
  - rewrite length_app, length_map, stride_length, IH. lia.
Qed.

(** X7: on a well-formed image the guard [i < data.length] never fails: the
    sample is the whole grid, one pixel for every fourth column of every
    fourth row, [ceil(width / 4) * ceil(height / 4)] pixels in all. *)
Theorem sample_is_grid imageData :
  wellFormed imageData ->
  sampledPoints imageData = sampleGrid imageData /\
  exists pixels,
    samplePixels imageData = Some pixels /\
    List.length pixels
    = ((width imageData + 3) / 4 * ((height imageData + 3) / 4))%nat.
Proof.
  intros Hwf.
  assert (Hgrid : sampledPoints imageData = sampleGrid imageData).
  { unfold sampledPoints. apply forallb_filter_id. apply forallb_forall.
    intros xy Hxy. apply Nat.ltb_lt.
    pose proof (offset_inside imageData xy Hwf Hxy). lia. }
  split; [exact Hgrid|].
  destruct (samplePixels_defined imageData Hwf) as (pixels & Hsample & Hlen).
  exists pixels. split; [exact Hsample|].
  rewrite Hlen, Hgrid. apply sampleGrid_length.
Qed.

Lemma sample_is_grid_witness :
  wellFormed stripImage /\
  sampledPoints stripImage = sampleGrid stripImage /\
  exists pixels,
    samplePixels stripImage = Some pixels /\
    List.length pixels
    = ((width stripImage + 3) / 4 * ((height stripImage + 3) / 4))%nat.
Proof.
  split; [reflexivity|]. apply (sample_is_grid stripImage). reflexivity.
Defined.

(** X8: an image of width zero, of height zero, or with an empty buffer
    yields [k] neutral grays, whatever [k] and the random source. *)
Theorem extractColorsKMeans_degenerate imageData k rnd :
  width imageData = O \/ height imageData = O \/ data imageData = [] ->
  fst (extractColorsKMeans imageData k rnd)
  = Returns (repeat (neutralGray imageData) k).
Proof.
  intros H. apply extractColorsKMeans_fallback.
  now apply empty_image_no_sample.
Qed.

Lemma extractColorsKMeans_degenerate_witness :
  (width emptyColumn = O \/ height emptyColumn = O \/ data emptyColumn = []) /\
  fst (extractColorsKMeans emptyColumn 4 countingSource)
  = Returns (repeat (neutralGray emptyColumn) 4).
Proof.
  split; [left; reflexivity|].
  apply (extractColorsKMeans_degenerate emptyColumn 4 countingSource).
  left. reflexivity.
Defined.

(** ** Tints and shades *)

(** X9: [generateColorVariations] returns [2 * floor(count / 2) + 1]
    colours, with the base colour itself, untouched, in the middle:
    [count] colours when [count] is odd, [count + 1] when it is even. *)
Theorem generateColorVariations_shape baseColor count :
  List.length (generateColorVariations baseColor count) = (2 * (count / 2) + 1)%nat /\
  nth_error (generateColorVariations baseColor count) (count / 2) = Some baseColor /\
  List.length (generateColorVariations baseColor count)
  = if Nat.even count then S count else count.
Proof.
  assert (Hlen : List.length (generateColorVariations baseColor count)
                 = (2 * (count / 2) + 1)%nat).
  { unfold generateColorVariations.
    rewrite !length_app, !length_map, !length_seq. cbn [List.length]. lia. }
  split; [exact Hlen|]. split.
  - unfold generateColorVariations.
    rewrite nth_error_app2 by (rewrite length_map, length_seq; lia).
    rewrite length_map, length_seq, Nat.sub_diag. reflexivity.
  - rewrite Hlen. pose proof (Nat.div_mod_eq count 2) as Hdm.
    rewrite <- Nat.bit0_mod, Nat.bit0_odd, <- Nat.negb_even in Hdm.
    destruct (Nat.even count); cbn [Nat.b2n negb] in Hdm; lia.
Qed.

(** X10: the tints and shades have consistent fields, so the variations of a
    consistent colour are all consistent. *)
Theorem generateColorVariations_consistent baseColor count :
  consistent baseColor ->
  Forall consistent (generateColorVariations baseColor count).
Proof.
  intros Hbase. unfold generateColorVariations.
  apply Forall_app. split; [|apply Forall_app; split].
  - apply Forall_forall. intros c Hc. apply in_map_iff in Hc.
    destruct Hc as (i & <- & _). apply colorOfRgb_consistent.
  - constructor; [exact Hbase|constructor].
  - apply Forall_forall. intros c Hc. apply in_map_iff in Hc.
    destruct Hc as (i & <- & _). apply colorOfRgb_consistent.
Qed.

Lemma generateColorVariations_consistent_witness :
  consistent vermilion /\
  Forall consistent (generateColorVariations vermilion 5).
Proof.
  split; [apply colorOfRgb_consistent|].
  apply (generateColorVariations_consistent vermilion 5).
  apply colorOfRgb_consistent.
Defined.

(** ** The palette *)

Lemma generated_consistent base rings mode :
  Forall consistent (generateComplementaryColors base rings mode).
Proof.
  apply Forall_forall. intros c Hc. apply generated_In in Hc.
  destruct Hc as (i & _ & ->). apply colorOfRgb_consistent.
Qed.

Lemma generated_length base rings mode :
  List.length (generateComplementaryColors base rings mode) = rings.
Proof.
  unfold generateComplementaryColors.
  rewrite length_firstn, length_map, length_seq. apply Nat.min_id.
Qed.


(** X11: the palette of [n] base colours holds [n * (1 + numRings)] colours
    and starts with the base colours themselves, in their order. *)
Theorem generatePalette_shape colors numRings mode :
  List.length (generatePalette colors numRings mode)
  = (List.length colors * (1 + numRings))%nat /\
  firstn (List.length colors) (generatePalette colors numRings mode) = colors.
Proof.
  unfold generatePalette. split.
  - rewrite length_app.
    assert (H : List.length
                  (flat_map (fun baseColor =>
                               generateComplementaryColors baseColor numRings mode)
                            colors)
                = (List.length colors * numRings)%nat).
    { induction colors as [|c cs IH]; cbn [flat_map List.length]; [reflexivity|].
      rewrite length_app, generated_length, IH. lia. }
    rewrite H. lia.
  - rewrite firstn_app, Nat.sub_diag, firstn_all. cbn [firstn].
    apply app_nil_r.
Qed.

(** ** Targets of the harmony generator, grays, distances *)

Lemma ringPlaces_In rings i :
  (3 <= rings <= 12)%nat -> (i < rings)%nat -> In (rings, i) ringPlaces.
Proof.
  intros Hr Hi. unfold ringPlaces. apply in_flat_map. exists rings.
  split; [apply in_seq; lia|]. apply in_map. apply in_seq. lia.
Qed.

Lemma targetLightness_checked :
  targetLightnessOK allModes ringPlaces (zRange 0 101) = true.
Proof. vm_cast_no_check (eq_refl true). Qed.

Lemma targetLightnessOK_In modes places lzs mode rings i lz :
  targetLightnessOK modes places lzs = true ->
  In mode modes -> In (rings, i) places -> In lz lzs ->
  between 10 90 (newL mode (hslColor 0 0 lz) rings i) = true.
Proof.
  intros Hall Hmode Hp Hlz. unfold targetLightnessOK in Hall.
  pose proof (forallb_In _ _ mode Hall Hmode) as H1. cbv beta in H1.
  pose proof (forallb_In _ _ (rings, i) H1 Hp) as H2. cbv beta in H2.
  exact (forallb_In _ _ lz H2 Hlz).
Qed.

(** X12: for a base colour of integer lightness in [0, 100], a ring of 3 to
    12 colours and any mode, the lightness handed to [hslToRgb] lies in
    [10, 90]. *)
Theorem target_lightness_clamped base rings mode i lz :
  l base = ofZ lz -> (0 <= lz <= 100)%Z ->
  (3 <= rings <= 12)%nat -> (i < rings)%nat ->
  between 10 90 (newL mode base rings i) = true.
Proof.
  intros Hl Hlz Hr Hi.
  replace (newL mode base rings i) with (newL mode (hslColor 0 0 lz) rings i)
    by (unfold newL; rewrite Hl; reflexivity).
  apply (targetLightnessOK_In _ _ _ mode rings i lz targetLightness_checked).
  - destruct mode; cbn; tauto.
  - now apply ringPlaces_In.
  - apply zRange_In. lia.
Qed.

Lemma target_lightness_clamped_witness :
  l vermilion = ofZ 40 /\ (0 <= 40 <= 100)%Z /\ (3 <= 7 <= 12)%nat /\ (6 < 7)%nat /\
  between 10 90 (newL Complementary vermilion 7 6) = true.
Proof.
  split; [reflexivity|]. split; [lia|]. split; [lia|]. split; [lia|].
  apply (target_lightness_clamped vermilion 7 Complementary 6 40 eq_refl); lia.
Defined.

Lemma analogousOffsets_checked : analogousOffsetsOK ringPlaces = true.
Proof. vm_cast_no_check (eq_refl true). Qed.

Lemma analogousOffsetsOK_In places rings i :
  analogousOffsetsOK places = true -> In (rings, i) places ->
  (-30 <=? analogousOffset rings i) && (analogousOffset rings i <? 30) = true.
Proof.
  intros Hall Hp. unfold analogousOffsetsOK in Hall.
  exact (forallb_In _ _ (rings, i) Hall Hp).
Qed.

(** X13: in an analogous ring of 3 to 12 colours the target hue of place [i]
    is the base hue moved by an offset in [-30, 30), then reduced modulo
    360. *)
Theorem analogous_offset_bounded base rings i :
  (3 <= rings <= 12)%nat -> (i < rings)%nat ->
  newH Analogous base rings i = rem (h base + analogousOffset rings i + 360) 360 /\
  (-30 <=? analogousOffset rings i) && (analogousOffset rings i <? 30) = true.
Proof.
  intros Hr Hi. split; [reflexivity|].
  exact (analogousOffsetsOK_In _ rings i analogousOffsets_checked
           (ringPlaces_In rings i Hr Hi)).
Qed.

Lemma analogous_offset_bounded_witness :
  (3 <= 5 <= 12)%nat /\ (0 < 5)%nat /\
  newH Analogous vermilion 5 0 = rem (h vermilion + analogousOffset 5 0 + 360) 360 /\
  (-30 <=? analogousOffset 5 0) && (analogousOffset 5 0 <? 30) = true.
Proof.
  split; [lia|]. split; [lia|].
  apply (analogous_offset_bounded vermilion 5 0); lia.
Defined.

(** X14: for a base colour of integer hue [hz] in [0, 360] and a ring of any
    size, entry [i] of a triadic, tetradic or split-complementary ring is
    built at the hue [(hz + offset) mod 360], the offsets being taken in
    turn from (0, 120, 240), (0, 90, 180, 270) or (0, 150, 210). *)
Theorem cyclic_entries base rings mode hz i off :
  h base = ofZ hz -> (0 <= hz <= 360)%Z -> (i < rings)%nat ->
  nth_error (cycleOffsets mode) (i mod List.length (cycleOffsets mode)) = Some off ->
  nth_error (generateComplementaryColors base rings mode) i =
    Some (colorOfRgb (hslToRgb (ofZ ((hz + off) mod 360)) (s base)
                               (newL mode base rings i))).
Proof.
  intros Hh Hhz Hi Hoff. rewrite generated_nth by assumption. f_equal.
  unfold ringColor. f_equal. f_equal.
  assert (M3 : (i mod 3 < 3)%nat) by (apply Nat.mod_upper_bound; lia).
  assert (M4 : (i mod 4 < 4)%nat) by (apply Nat.mod_upper_bound; lia).
  destruct mode; cbn [cycleOffsets List.length] in Hoff;
    try (destruct (i mod 0)%nat; discriminate Hoff);
    cbn [newH]; rewrite Hh.
  - destruct (i mod 3)%nat as [|[|[|n]]]; [| | |lia]; injection Hoff as <-.
    + apply (hue_target hz 0); [assumption|cbn; tauto].
    + apply (hue_target hz 120); [assumption|cbn; tauto].
    + apply (hue_target hz 240); [assumption|cbn; tauto].
  - destruct (i mod 4)%nat as [|[|[|[|n]]]]; [| | | |lia]; injection Hoff as <-.
    + apply (hue_target hz 0); [assumption|cbn; tauto].
    + apply (hue_target hz 90); [assumption|cbn; tauto].
    + apply (hue_target hz 180); [assumption|cbn; tauto].
    + apply (hue_target hz 270); [assumption|cbn; tauto].
  - destruct (i mod 3)%nat as [|[|[|n]]]; [| | |lia]; injection Hoff as <-.
    + apply (hue_target hz 0); [assumption|cbn; tauto].
    + apply (hue_target hz 150); [assumption|cbn; tauto].
    + apply (hue_target hz 210); [assumption|cbn; tauto].
Qed.

Lemma cyclic_entries_witness :
  h vermilion = ofZ 3 /\ (0 <= 3 <= 360)%Z /\ (5 < 8)%nat /\
  nth_error (cycleOffsets Tetradic) (5 mod List.length (cycleOffsets Tetradic))
  = Some 90%Z /\
  nth_error (generateComplementaryColors vermilion 8 Tetradic) 5 =
    Some (colorOfRgb (hslToRgb (ofZ ((3 + 90) mod 360)) (s vermilion)
                               (newL Tetradic vermilion 8 5))).
Proof.
  split; [reflexivity|]. split; [lia|]. split; [lia|]. split; [reflexivity|].
  apply (cyclic_entries vermilion 8 Tetradic 3 5 90 eq_refl); [lia|lia|reflexivity].
Defined.

Lemma fullTurn_checked : fullTurnOK (numbers 0 101) = true.
Proof. vm_cast_no_check (eq_refl true). Qed.

Lemma fullTurnOK_In percents s l :
  fullTurnOK percents = true -> In s percents -> In l percents ->
  hslToRgb 360 s l = hslToRgb 0 s l.
Proof.
  intros Hall Hs Hl. unfold fullTurnOK in Hall.
  pose proof (forallb_In _ _ s Hall Hs) as H1. cbv beta in H1.
  pose proof (forallb_In _ _ l H1 Hl) as H2. cbv beta in H2.
  unfold sameRgb in H2.
  apply andb_prop in H2. destruct H2 as [H2 Hb].
  apply andb_prop in H2. destruct H2 as [Hr Hg].
  apply Leibniz.eqb_spec in Hr, Hg, Hb.
  destruct (hslToRgb 360 s l) as [r1 g1 b1].
  destruct (hslToRgb 0 s l) as [r2 g2 b2].
  cbn [rgb_r rgb_g rgb_b] in Hr, Hg, Hb. congruence.
Qed.

(** X15: [rgbToHsl] can return the hue 360 (it does for (255, 0, 1)), and
    [hslToRgb] gives hue 360 the channels of hue 0, for all integer
    saturations and lightnesses in [0, 100]. *)
Theorem hue_360_is_hue_0 (sz lz : Z) :
  (0 <= sz <= 100)%Z -> (0 <= lz <= 100)%Z ->
  hsl_h (rgbToHsl 255 0 1) = 360 /\
  hslToRgb 360 (ofZ sz) (ofZ lz) = hslToRgb 0 (ofZ sz) (ofZ lz).
Proof.
  intros Hs Hl. split; [vm_compute; reflexivity|].
  apply (fullTurnOK_In _ _ _ fullTurn_checked); apply numbers_In; lia.
Qed.

Lemma hue_360_is_hue_0_witness :
  (0 <= 80 <= 100)%Z /\ (0 <= 35 <= 100)%Z /\
  hsl_h (rgbToHsl 255 0 1) = 360 /\
  hslToRgb 360 (ofZ 80) (ofZ 35) = hslToRgb 0 (ofZ 80) (ofZ 35).
Proof.
  split; [lia|]. split; [lia|]. apply (hue_360_is_hue_0 80 35); lia.
Defined.

Lemma grays_checked : forallb grayOK byteValues = true.
Proof. vm_cast_no_check (eq_refl true). Qed.

(** X16: grays have no hue and no saturation.  [rgbToHsl] gives h = 0 and
    s = 0 for every gray (v, v, v) of the byte range, and [hslToRgb] gives
    three equal channels whenever the saturation is 0, whatever the hue and
    the lightness. *)
Theorem gray_is_achromatic (v : Z) (hue light : float) :
  (0 <= v <= 255)%Z ->
  hsl_h (rgbToHsl (ofZ v) (ofZ v) (ofZ v)) = 0 /\
  hsl_s (rgbToHsl (ofZ v) (ofZ v) (ofZ v)) = 0 /\
  rgb_g (hslToRgb hue 0 light) = rgb_r (hslToRgb hue 0 light) /\
  rgb_b (hslToRgb hue 0 light) = rgb_r (hslToRgb hue 0 light).
Proof.
  intros Hv.
  pose proof (forallb_In _ _ (ofZ v) grays_checked (byteValues_In v Hv)) as H1.
  unfold grayOK in H1. apply andb_prop in H1. destruct H1 as [Hh Hs].
  apply Leibniz.eqb_spec in Hh, Hs.
  split; [exact Hh|]. split; [exact Hs|].
  unfold hslToRgb. change (0 / 100 =? 0) with true. cbn [rgb_r rgb_g rgb_b].
  split; reflexivity.
Qed.

Lemma gray_is_achromatic_witness :
  (0 <= 77 <= 255)%Z /\
  hsl_h (rgbToHsl (ofZ 77) (ofZ 77) (ofZ 77)) = 0 /\
  hsl_s (rgbToHsl (ofZ 77) (ofZ 77) (ofZ 77)) = 0 /\
  rgb_g (hslToRgb 200 0 40) = rgb_r (hslToRgb 200 0 40) /\
  rgb_b (hslToRgb 200 0 40) = rgb_r (hslToRgb 200 0 40).
Proof.
  split; [lia|]. apply (gray_is_achromatic 77 200 40). lia.
Defined.

Lemma squares_checked : squaresOK byteValues = true.
Proof. vm_cast_no_check (eq_refl true). Qed.

Lemma squaresOK_In bytes a b :
  squaresOK bytes = true -> In a bytes -> In b bytes ->
  Math_pow2 (a - b) = Math_pow2 (b - a) /\ Math_pow2 (a - a) = 0.
Proof.
  intros Hall Ha Hb. unfold squaresOK in Hall.
  pose proof (forallb_In _ _ a Hall Ha) as H1. cbv beta in H1.
  apply andb_prop in H1. destruct H1 as [H1 H0].
  pose proof (forallb_In _ _ b H1 Hb) as H2. cbv beta in H2.
  split; now apply Leibniz.eqb_spec.
Qed.

Lemma square_sym a b :
  In a byteValues -> In b byteValues ->
  Math_pow2 (a - b) = Math_pow2 (b - a).
Proof. intros Ha Hb. exact (proj1 (squaresOK_In _ a b squares_checked Ha Hb)). Qed.

Lemma square_zero a : In a byteValues -> Math_pow2 (a - a) = 0.
Proof. intros Ha. exact (proj2 (squaresOK_In _ a a squares_checked Ha Ha)). Qed.

(** X17: on pixels of three bytes [colorDistance] is symmetric, and the
    distance of a pixel to itself is 0. *)
Theorem colorDistance_symmetric p q :
  bytePixel p -> bytePixel q ->
  colorDistance p q = colorDistance q p /\ colorDistance p p = 0.
Proof.
  intros (Hp0 & Hp1 & Hp2) (Hq0 & Hq1 & Hq2). unfold colorDistance. split.
  - rewrite (square_sym (ch0 p) (ch0 q)), (square_sym (ch1 p) (ch1 q)),
      (square_sym (ch2 p) (ch2 q)) by assumption.
    reflexivity.
  - rewrite !square_zero by assumption. vm_compute. reflexivity.
Qed.

Lemma colorDistance_symmetric_witness :
  bytePixel (ofZ 10, ofZ 200, ofZ 30) /\ bytePixel (ofZ 0, ofZ 255, ofZ 7) /\
  colorDistance (ofZ 10, ofZ 200, ofZ 30) (ofZ 0, ofZ 255, ofZ 7)
  = colorDistance (ofZ 0, ofZ 255, ofZ 7) (ofZ 10, ofZ 200, ofZ 30) /\
  colorDistance (ofZ 10, ofZ 200, ofZ 30) (ofZ 10, ofZ 200, ofZ 30) = 0.
Proof.
  assert (Hp : bytePixel (ofZ 10, ofZ 200, ofZ 30))
    by (repeat split; apply byteValues_In; lia).
  assert (Hq : bytePixel (ofZ 0, ofZ 255, ofZ 7))
    by (repeat split; apply byteValues_In; lia).
  split; [exact Hp|]. split; [exact Hq|].
  exact (colorDistance_symmetric _ _ Hp Hq).
Defined.

(** ** The hex string *)

Lemma hexPairs_checked : hexPairsOK byteValues = true.
Proof. vm_cast_no_check (eq_refl true). Qed.

Lemma hexPairsOK_In bytes a b :
  hexPairsOK bytes = true -> In a bytes -> In b bytes ->
  twoHexDigits (hexPair a) = true /\ (hexPair a = hexPair b -> a = b).
Proof.
  intros Hall Ha Hb. unfold hexPairsOK in Hall. cbv zeta in Hall.
  assert (Ha' : In (a, hexPair a) (map (fun a => (a, hexPair a)) bytes))
    by (apply in_map_iff; eauto).
  assert (Hb' : In (b, hexPair b) (map (fun a => (a, hexPair a)) bytes))
    by (apply in_map_iff; eauto).
  pose proof (forallb_In _ _ _ Hall Ha') as H1. cbv beta in H1.
  apply andb_prop in H1. destruct H1 as [Htwo H1].
  pose proof (forallb_In _ _ _ H1 Hb') as H2. cbv beta in H2.
  cbn [fst snd] in Htwo, H2.
  split; [exact Htwo|]. intros E. rewrite E, String.eqb_refl in H2.
  now apply Leibniz.eqb_spec.
Qed.

Lemma twoHexDigits_inv str :
  twoHexDigits str = true ->
  exists c1 c2, str = String c1 (String c2 EmptyString) /\
                isHexDigit c1 = true /\ isHexDigit c2 = true.
Proof.
  destruct str as [|c1 [|c2 [|c3 rest]]]; cbn [twoHexDigits]; try discriminate.
  intros H. apply andb_prop in H. destruct H. eauto.
Qed.

Lemma rgbToHex_pairs r g b :
  rgbToHex r g b
  = String "#" (hexPair r ++ (EmptyString ++ (hexPair g ++ (EmptyString ++ hexPair b)))).
Proof. reflexivity. Qed.

(** X18: for byte channels [rgbToHex] writes [#] and six lowercase
    hexadecimal digits, two for each channel, and different colours get
    different strings. *)
Theorem rgbToHex_format r g b r' g' b' :
  In r byteValues -> In g byteValues -> In b byteValues ->
  In r' byteValues -> In g' byteValues -> In b' byteValues ->
  (exists c1 c2 c3 c4 c5 c6,
     rgbToHex r g b
     = String "#" (String c1 (String c2 (String c3 (String c4
                     (String c5 (String c6 EmptyString)))))) /\
     forallb isHexDigit [c1; c2; c3; c4; c5; c6] = true) /\
  (rgbToHex r g b = rgbToHex r' g' b' -> r = r' /\ g = g' /\ b = b').
Proof.
  intros Hr Hg Hb Hr' Hg' Hb'.
  destruct (hexPairsOK_In _ r r' hexPairs_checked Hr Hr') as [Tr Ir].
  destruct (hexPairsOK_In _ g g' hexPairs_checked Hg Hg') as [Tg Ig].
  destruct (hexPairsOK_In _ b b' hexPairs_checked Hb Hb') as [Tb Ib].
  destruct (hexPairsOK_In _ r' r' hexPairs_checked Hr' Hr') as [Tr' _].
  destruct (hexPairsOK_In _ g' g' hexPairs_checked Hg' Hg') as [Tg' _].
  destruct (hexPairsOK_In _ b' b' hexPairs_checked Hb' Hb') as [Tb' _].
  rewrite !rgbToHex_pairs.
  apply twoHexDigits_inv in Tr, Tg, Tb, Tr', Tg', Tb'.
  destruct Tr as (c1 & c2 & Er & D1 & D2), Tg as (c3 & c4 & Eg & D3 & D4),
           Tb as (c5 & c6 & Eb & D5 & D6).
  destruct Tr' as (d1 & d2 & Er' & _), Tg' as (d3 & d4 & Eg' & _),
           Tb' as (d5 & d6 & Eb' & _).
  rewrite Er, Eg, Eb, Er', Eg', Eb' in *. cbn [String.append]. split.
  - exists c1, c2, c3, c4, c5, c6. split; [reflexivity|].
    cbn [forallb]. rewrite D1, D2, D3, D4, D5, D6. reflexivity.
  - intros E. injection E as -> -> -> -> -> ->. auto.
Qed.

Lemma rgbToHex_format_witness :
  In (ofZ 204) byteValues /\
  (exists c1 c2 c3 c4 c5 c6,
     rgbToHex (ofZ 204) (ofZ 10) (ofZ 0)
     = String "#" (String c1 (String c2 (String c3 (String c4
                     (String c5 (String c6 EmptyString)))))) /\
     forallb isHexDigit [c1; c2; c3; c4; c5; c6] = true) /\
  (rgbToHex (ofZ 204) (ofZ 10) (ofZ 0) = rgbToHex (ofZ 204) (ofZ 10) (ofZ 1) ->
   ofZ 204 = ofZ 204 /\ ofZ 10 = ofZ 10 /\ ofZ 0 = ofZ 1).
Proof.
  split; [apply byteValues_In; lia|].
  apply (rgbToHex_format (ofZ 204) (ofZ 10) (ofZ 0) (ofZ 204) (ofZ 10) (ofZ 1));
    apply byteValues_In; lia.
Defined.

(** ** The callers *)

Lemma extractColorsKMeans_returns imageData k rnd :
  wellFormed imageData -> (1 <= k)%nat ->
  exists colors,
    fst (extractColorsKMeans imageData k rnd) = Returns colors /\
    List.length colors = k /\ Forall consistent colors /\
    Forall (fun c => position c <> None) colors.
Proof.
  intros Hwf Hk.
  destruct (samplePixels_defined imageData Hwf) as ([|p ps] & Hsample & _).
  - exists (repeat (neutralGray imageData) k).
    split; [now apply extractColorsKMeans_fallback|].
    split; [apply repeat_length|].
    split; apply Forall_forall; intros c Hc; apply repeat_spec in Hc; subst c.
    + apply neutralGray_consistent.
    + discriminate.
  - destruct (extractColorsKMeans_clustered imageData k rnd p ps Hk Hsample)
      as (centroids & colorPositions & Hlen & _ & Hrun).
    eexists. split; [exact Hrun|]. split; [|split].
    + apply padResult_length. rewrite mapIndexed_length, length_firstn. lia.
    + apply padResult_Forall; [apply neutralGray_consistent|].
      apply mapIndexed_Forall. intros rgb idx. apply resultColor_consistent.
    + apply padResult_Forall; [discriminate|].
      apply mapIndexed_Forall. intros rgb idx. discriminate.
Qed.

(** X19: loading a well-formed image sets five base colours, each with a
    position, and a palette of [5 + 5 * rings] colours that starts with the
    base colours; all their fields are consistent. *)
Theorem handleImageLoad_palette imageData rings harmonyMode rnd :
  wellFormed imageData ->
  exists baseColors allColors,
    fst (handleImageLoad imageData rings harmonyMode rnd)
    = Returns (baseColors, allColors) /\
    List.length baseColors = 5%nat /\
    Forall (fun c => position c <> None) baseColors /\
    List.length allColors = (5 + 5 * rings)%nat /\
    firstn 5 allColors = baseColors /\
    Forall consistent allColors.
Proof.
  intros Hwf. unfold handleImageLoad, bind.
  destruct (extractColorsKMeans_returns imageData 5 rnd Hwf ltac:(lia))
    as (colors & Hrun & Hlen & Hcons & Hpos).
  destruct (extractColorsKMeans imageData 5 rnd) as [outcome rnd1].
  cbn [fst] in Hrun. subst outcome. unfold ret. cbn [fst].
  exists colors, (generatePalette colors rings harmonyMode).
  split; [reflexivity|]. split; [exact Hlen|]. split; [exact Hpos|].
  unfold generatePalette. split; [|split].
  - rewrite length_app.
    assert (H : List.length
                  (flat_map (fun baseColor =>
                               generateComplementaryColors baseColor rings harmonyMode)
                            colors)
                = (List.length colors * rings)%nat).
    { clear. induction colors as [|c cs IH]; cbn [flat_map List.length]; [reflexivity|].
      rewrite length_app, generated_length, IH. lia. }
    rewrite H, Hlen. lia.
  - rewrite <- Hlen, firstn_app, Nat.sub_diag, firstn_all. cbn [firstn].
    apply app_nil_r.
  - apply Forall_app. split; [exact Hcons|].
    apply Forall_forall. intros c Hc. apply in_flat_map in Hc.
    destruct Hc as (base & _ & Hc).
    pose proof (generated_consistent base rings harmonyMode) as Hall.
    rewrite Forall_forall in Hall. now apply Hall.
Qed.

Lemma handleImageLoad_palette_witness :
  wellFormed stripImage /\
  exists baseColors allColors,
    fst (handleImageLoad stripImage 4 Triadic countingSource)
    = Returns (baseColors, allColors) /\
    List.length baseColors = 5%nat /\
    Forall (fun c => position c <> None) baseColors /\
    List.length allColors = (5 + 5 * 4)%nat /\
    firstn 5 allColors = baseColors /\
    Forall consistent allColors.
Proof.
  split; [reflexivity|].
  apply (handleImageLoad_palette stripImage 4 Triadic countingSource). reflexivity.
Defined.

(** X20: inside a well-formed image [sampleColorAtPosition] returns the
    colour of the three bytes at [(y * width + x) * 4], with consistent
    fields and the coordinates as its position. *)
Theorem sampleColorAtPosition_inside imageData x y :
  wellFormed imageData ->
  (x < width imageData)%nat -> (y < height imageData)%nat ->
  exists c,
    sampleColorAtPosition (Some imageData) x y = Returns (Some c) /\
    Some (r c) = readData imageData ((y * width imageData + x) * 4) /\
    Some (g c) = readData imageData ((y * width imageData + x) * 4 + 1) /\
    Some (b c) = readData imageData ((y * width imageData + x) * 4 + 2) /\
    consistent c /\
    position c = Some (mkPosition (ofNat x) (ofNat y)).
Proof.
  intros Hwf Hx Hy. unfold sampleColorAtPosition.
  assert (Hin : ((y * width imageData + x) * 4 + 3 < List.length (data imageData))%nat)
    by (rewrite Hwf; nia).
  destruct (readData_defined imageData ((y * width imageData + x) * 4)) as [c0 ->];
    [lia|].
  destruct (readData_defined imageData ((y * width imageData + x) * 4 + 1)) as [c1 ->];
    [lia|].
  destruct (readData_defined imageData ((y * width imageData + x) * 4 + 2)) as [c2 ->];
    [lia|].
  eexists. split; [reflexivity|]. cbn [r g b position].
  repeat (split; [reflexivity|]). split; [|reflexivity].
  unfold consistent. cbn [r g b h s l hex]. auto.
Qed.

Lemma sampleColorAtPosition_inside_witness :
  wellFormed stripImage /\ (4 < width stripImage)%nat /\ (0 < height stripImage)%nat /\
  exists c,
    sampleColorAtPosition (Some stripImage) 4 0 = Returns (Some c) /\
    Some (r c) = readData stripImage ((0 * width stripImage + 4) * 4) /\
    Some (g c) = readData stripImage ((0 * width stripImage + 4) * 4 + 1) /\
    Some (b c) = readData stripImage ((0 * width stripImage + 4) * 4 + 2) /\
    consistent c /\
    position c = Some (mkPosition (ofNat 4) (ofNat 0)).
Proof.
  split; [reflexivity|]. split; [cbn; lia|]. split; [cbn; lia|].
  apply (sampleColorAtPosition_inside stripImage 4 0); [reflexivity|cbn; lia|cbn; lia].
Defined.

(** X21: below the last row of a well-formed image, and with no image at
    all, nothing is sampled: the first throws ([rgbToHex] of [undefined]),
    the second returns [null]. *)
Theorem sampleColorAtPosition_outside imageData x y :
  wellFormed imageData -> (height imageData <= y)%nat ->
  sampleColorAtPosition (Some imageData) x y = Throws /\
  sampleColorAtPosition None x y = Returns None.
Proof.
  intros Hwf Hy. split; [|reflexivity]. unfold sampleColorAtPosition.
  assert (E : readData imageData ((y * width imageData + x) * 4) = None).
  { unfold readData.
    replace (nth_error (data imageData) ((y * width imageData + x) * 4))
      with (@None Z); [reflexivity|].
    symmetry. apply nth_error_None. rewrite Hwf. nia. }
  rewrite E. reflexivity.
Qed.

Lemma sampleColorAtPosition_outside_witness :
  wellFormed stripImage /\ (height stripImage <= 1)%nat /\
  sampleColorAtPosition (Some stripImage) 2 1 = Throws /\
  sampleColorAtPosition None 2 1 = Returns None.
Proof.
  split; [reflexivity|]. split; [cbn; lia|].
  apply (sampleColorAtPosition_outside stripImage 2 1); [reflexivity|cbn; lia].
Defined.

(** ** Integer hue, saturation and lightness *)

Lemma integerHslOK_staged h s l :
  integerHslOK h s l = stagedHslOK hueConstants s l h.
Proof.
  unfold integerHslOK, stagedHslOK, hslToRgb.
  cbn [hueConstants third sixth half twoThirds]. cbv zeta.
  destruct (s / 100 =? 0); rewrite ?roundedHue_eq; reflexivity.
Qed.

Lemma stagedHsl_checked :
  allStagedHslOK hueConstants (numbers 0 361) (numbers 0 101) = true.
Proof. vm_cast_no_check (eq_refl true). Qed.

Lemma allStagedHslOK_In k hues percents h s l :
  allStagedHslOK k hues percents = true ->
  In h hues -> In s percents -> In l percents ->
  stagedHslOK k s l h = true.
Proof.
  intros Hall Hh Hs Hl. unfold allStagedHslOK in Hall.
  pose proof (forallb_In _ _ s Hall Hs) as H1. cbv beta in H1.
  pose proof (forallb_In _ _ l H1 Hl) as H2. cbv beta in H2.
  exact (forallb_In _ _ h H2 Hh).
Qed.

Lemma integerHsl hz sz lz :
  (0 <= hz <= 360)%Z -> (0 <= sz <= 100)%Z -> (0 <= lz <= 100)%Z ->
  rgbInRange (hslToRgb (ofZ hz) (ofZ sz) (ofZ lz)) = true /\
  l (colorOfRgb (hslToRgb (ofZ hz) (ofZ sz) (ofZ lz))) = ofZ lz.
Proof.
  intros Hh Hs Hl.
  pose proof (allStagedHslOK_In _ _ _ (ofZ hz) (ofZ sz) (ofZ lz) stagedHsl_checked
                (numbers_In 0 361 hz ltac:(lia)) (numbers_In 0 101 sz ltac:(lia))
                (numbers_In 0 101 lz ltac:(lia))) as H.
  rewrite <- integerHslOK_staged in H.
  unfold integerHslOK in H. cbv zeta in H.
  apply andb_prop in H. destruct H as [Hrange Hlight].
  split; [exact Hrange|]. now apply Leibniz.eqb_spec.
Qed.

(** X22: for all integers h in [0, 360] and s, l in [0, 100], the channels
    [hslToRgb(h, s, l)] returns lie in [0, 255], and [rgbToHsl] of these
    channels gives exactly the lightness [l] back. *)
Theorem hslToRgb_channels_and_lightness (hz sz lz : Z) :
  (0 <= hz <= 360)%Z -> (0 <= sz <= 100)%Z -> (0 <= lz <= 100)%Z ->
  rgbInRange (hslToRgb (ofZ hz) (ofZ sz) (ofZ lz)) = true /\
  hsl_l (rgbToHsl (rgb_r (hslToRgb (ofZ hz) (ofZ sz) (ofZ lz)))
                  (rgb_g (hslToRgb (ofZ hz) (ofZ sz) (ofZ lz)))
                  (rgb_b (hslToRgb (ofZ hz) (ofZ sz) (ofZ lz))))
  = ofZ lz.
Proof. intros Hh Hs Hl. exact (integerHsl hz sz lz Hh Hs Hl). Qed.

Lemma hslToRgb_channels_and_lightness_witness :
  (0 <= 183 <= 360)%Z /\ (0 <= 100 <= 100)%Z /\ (0 <= 10 <= 100)%Z /\
  rgbInRange (hslToRgb (ofZ 183) (ofZ 100) (ofZ 10)) = true /\
  hsl_l (rgbToHsl (rgb_r (hslToRgb (ofZ 183) (ofZ 100) (ofZ 10)))
                  (rgb_g (hslToRgb (ofZ 183) (ofZ 100) (ofZ 10)))
                  (rgb_b (hslToRgb (ofZ 183) (ofZ 100) (ofZ 10))))
  = ofZ 10.
Proof.
  split; [lia|]. split; [lia|]. split; [lia|].
  apply (hslToRgb_channels_and_lightness 183 100 10); lia.
Defined.

Lemma newH_integer base rings mode i hz :
  mode <> Analogous -> (0 <= hz <= 360)%Z -> h base = ofZ hz ->
  exists tz, (0 <= tz < 360)%Z /\ newH mode base rings i = ofZ tz.
Proof.
  intros Hmode Hhz Hh.
  assert (G : forall off, In off hueOffsets ->
                exists tz, (0 <= tz < 360)%Z /\ rem (ofZ hz + ofZ off) 360 = ofZ tz).
  { intros off Hoff. exists ((hz + off) mod 360)%Z.
    split; [apply Z.mod_pos_bound; lia|now apply hue_target]. }
  assert (M3 : (i mod 3 < 3)%nat) by (apply Nat.mod_upper_bound; lia).
  assert (M4 : (i mod 4 < 4)%nat) by (apply Nat.mod_upper_bound; lia).
  unfold newH. rewrite Hh. destruct mode; [|congruence| | |].
  - apply (G 180%Z). cbn; tauto.
  - destruct (i mod 3)%nat as [|[|[|n]]]; [| | |lia].
    + apply (G 0%Z); cbn; tauto.
    + apply (G 120%Z); cbn; tauto.
    + apply (G 240%Z); cbn; tauto.
  - destruct (i mod 4)%nat as [|[|[|[|n]]]]; [| | | |lia].
    + apply (G 0%Z); cbn; tauto.
    + apply (G 90%Z); cbn; tauto.
    + apply (G 180%Z); cbn; tauto.
    + apply (G 270%Z); cbn; tauto.
  - destruct (i mod 3)%nat as [|[|[|n]]]; [| | |lia].
    + apply (G 0%Z); cbn; tauto.
    + apply (G 150%Z); cbn; tauto.
    + apply (G 210%Z); cbn; tauto.
Qed.

(** X23: in every mode but the analogous one, an entry whose target
    lightness is an integer [L] keeps it: its field [l] is exactly [L]
    (for a base colour of integer hue and saturation). *)
Theorem integer_target_lightness base rings mode i hz sz L :
  h base = ofZ hz -> s base = ofZ sz ->
  (0 <= hz <= 360)%Z -> (0 <= sz <= 100)%Z ->
  mode <> Analogous -> (i < rings)%nat ->
  newL mode base rings i = ofZ L -> (0 <= L <= 100)%Z ->
  exists c,
    nth_error (generateComplementaryColors base rings mode) i = Some c /\
    l c = ofZ L.
Proof.
  intros Hh Hs Hhz Hsz Hmode Hi HL HLr.
  exists (ringColor mode base rings i). split; [now apply generated_nth|].
  destruct (newH_integer base rings mode i hz Hmode Hhz Hh) as (tz & Htz & HH).
  unfold ringColor. rewrite HH, Hs, HL.
  apply integerHsl; lia.
Qed.

Lemma integer_target_lightness_witness :
  h vermilion = ofZ 3 /\ s vermilion = ofZ 100 /\
  newL Complementary vermilion 5 1 = ofZ 22 /\
  exists c,
    nth_error (generateComplementaryColors vermilion 5 Complementary) 1 = Some c /\
    l c = ofZ 22.
Proof.
  split; [reflexivity|]. split; [reflexivity|]. split; [reflexivity|].
  apply (integer_target_lightness vermilion 5 Complementary 1 3 100 22);
    try reflexivity; try lia; discriminate.
Defined.

Lemma variationTargets_checked :
  variationTargetsOK (zRange 0 101) (seq 1 10) = true.
Proof. vm_cast_no_check (eq_refl true). Qed.

Lemma variationTargetsOK_In lzs places lz i :
  variationTargetsOK lzs places = true -> In lz lzs -> In i places ->
  Math_min 95 (ofZ lz + ofNat i * 15) = ofZ (Z.min 95 (lz + 15 * Z.of_nat i)) /\
  Math_max 5 (ofZ lz - ofNat i * 15) = ofZ (Z.max 5 (lz - 15 * Z.of_nat i)).
Proof.
  intros Hall Hlz Hi. unfold variationTargetsOK in Hall.
  pose proof (forallb_In _ _ lz Hall Hlz) as H1. cbv beta in H1.
  pose proof (forallb_In _ _ i H1 Hi) as H2. cbv beta in H2.
  apply andb_prop in H2. destruct H2 as [Ht Hs].
  split; now apply Leibniz.eqb_spec.
Qed.

(** X24: for a base colour of integer hue, saturation and lightness and a
    [count] of at most 21, tint number [i] sits at index [i - 1] with
    lightness exactly [min(95, l + 15 i)] and shade number [i] at index
    [floor(count / 2) + i] with lightness exactly [max(5, l - 15 i)]. *)
Theorem generateColorVariations_lightness base count i hz sz lz :
  h base = ofZ hz -> s base = ofZ sz -> l base = ofZ lz ->
  (0 <= hz <= 360)%Z -> (0 <= sz <= 100)%Z -> (0 <= lz <= 100)%Z ->
  (count <= 21)%nat -> (1 <= i <= count / 2)%nat ->
  (exists c,
     nth_error (generateColorVariations base count) (i - 1) = Some c /\
     l c = ofZ (Z.min 95 (lz + 15 * Z.of_nat i))) /\
  (exists c,
     nth_error (generateColorVariations base count) (count / 2 + i) = Some c /\
     l c = ofZ (Z.max 5 (lz - 15 * Z.of_nat i))).
Proof.
  intros Hh Hs Hl Hhz Hsz Hlz Hcount Hi.
  assert (Hhalf : (count / 2 <= 10)%nat).
  { pose proof (Nat.div_mod_eq count 2). lia. }
  destruct (variationTargetsOK_In _ _ lz i variationTargets_checked
              (zRange_In 0 101 lz ltac:(lia)) (proj2 (in_seq 10 1 i) ltac:(lia)))
    as [Htint Hshade].
  unfold generateColorVariations. split.
  - exists (tint base i). split.
    + rewrite nth_error_app1 by (rewrite length_map, length_seq; lia).
      rewrite nth_error_map, nth_error_seq.
      destruct (Nat.ltb_spec (i - 1) (count / 2)); [|lia].
      cbn [option_map]. replace (1 + (i - 1))%nat with i by lia. reflexivity.
    + unfold tint, variationColor. rewrite Hh, Hs, Hl, Htint.
      apply integerHsl; lia.
  - exists (shade base i). split.
    + rewrite nth_error_app2 by (rewrite length_map, length_seq; lia).
      rewrite length_map, length_seq.
      replace (count / 2 + i - count / 2)%nat with (S (i - 1)) by lia.
      cbn [app nth_error].
      rewrite nth_error_map, nth_error_seq.
      destruct (Nat.ltb_spec (i - 1) (count / 2)); [|lia].
      cbn [option_map]. replace (1 + (i - 1))%nat with i by lia. reflexivity.
    + unfold shade, variationColor. rewrite Hh, Hs, Hl, Hshade.
      apply integerHsl; lia.
Qed.

Lemma generateColorVariations_lightness_witness :
  h vermilion = ofZ 3 /\ s vermilion = ofZ 100 /\ l vermilion = ofZ 40 /\
  (5 <= 21)%nat /\ (1 <= 2 <= 5 / 2)%nat /\
  (exists c,
     nth_error (generateColorVariations vermilion 5) (2 - 1) = Some c /\
     l c = ofZ (Z.min 95 (40 + 15 * Z.of_nat 2))) /\
  (exists c,
     nth_error (generateColorVariations vermilion 5) (5 / 2 + 2) = Some c /\
     l c = ofZ (Z.max 5 (40 - 15 * Z.of_nat 2))).
Proof.
  split; [reflexivity|]. split; [reflexivity|]. split; [reflexivity|].
  split; [lia|]. split; [cbn; lia|].
  apply (generateColorVariations_lightness vermilion 5 2 3 100 40);
    try reflexivity; try lia; cbn; lia.
Defined.
